(** * Sales report generator ([execute.py]): model and verified properties

    The program loads a transactions table with pandas, derives
    [revenue = units * price], parses the dates, and prints four metrics:
    the row count, the number of distinct regions, the three products with
    the largest summed revenue, and for every region the trailing 7-day
    rolling mean of its daily revenue at its latest date.

    The embedding follows [main] statement by statement, in four parts.

    The first part takes the table as the specification describes it: the
    data frame as it stands after [pd.read_csv] and [pd.to_datetime] with
    every cell present and typed.  Numbers are exact rationals ([Q]) in place
    of binary floating point, timestamps are integer nanoseconds as in
    [datetime64[ns]], labels are strings, and the result dictionary is a
    finite map.  The pandas operations used by the program are transcribed
    with the semantics the library documents:
    - [groupby] (default [sort=True]) yields one group per distinct key, the
      keys in ascending order, the rows of a group in frame order;
    - [sort_values(ascending=False)] arranges the series in descending order
      of the values; this part sorts by insertion, and its theorems hold
      whatever the order of equal values;
    - [rolling(window='7D', min_periods=1)] (default [closed='right'])
      averages the rows whose time stamp [t'] satisfies [t - 7D < t' <= t].

    The other parts drop one assumption of the first each: the frame with
    missing cells and with numbers beyond the range of float64, for the
    counters and the rolling dictionary; the ranking over every sort routine,
    since the default sort of pandas is not stable; and the product of two
    int64 columns, which wraps around. *)

From Stdlib Require Import QArith Qround Qabs Lqa.
From stdpp Require Import base list sorting strings gmap.

Close Scope Q_scope.

(** ** Strongly sorted lists *)

Section strongly_sorted.
Context {A : Type}.
Implicit Types (R : relation A) (l : list A).

Lemma StronglySorted_weaken R1 R2 l :
  (∀ a b, a ∈ l → b ∈ l → R1 a b → R2 a b) →
  StronglySorted R1 l → StronglySorted R2 l.
Proof.
  intros HR Hl. induction Hl as [|x l Hl IH Hx]; constructor.
  - apply IH. intros a b Ha Hb. apply HR; by right.
  - rewrite Forall_forall in Hx |- *. intros y Hy.
    apply HR; [by left|by right|by apply Hx].
Qed.

Lemma StronglySorted_reverse R l :
  StronglySorted R l → StronglySorted (flip R) (reverse l).
Proof.
  induction 1 as [|x l Hl IH Hx]; [constructor|].
  rewrite reverse_cons. apply StronglySorted_app_2; [|done|repeat constructor].
  intros a b Ha ->%list_elem_of_singleton. rewrite elem_of_reverse in Ha.
  rewrite Forall_forall in Hx. by apply Hx.
Qed.

Lemma StronglySorted_take R l k :
  StronglySorted R l → StronglySorted R (take k l).
Proof.
  intros Hl. rewrite <-(take_drop k l) in Hl.
  by apply StronglySorted_app_1_l in Hl.
Qed.

Lemma StronglySorted_filter R (P : A → Prop) `{∀ x, Decision (P x)} l :
  StronglySorted R l → StronglySorted R (filter P l).
Proof.
  induction 1 as [|x l Hl IH Hx]; [constructor|].
  rewrite filter_cons. case_decide; [|done].
  constructor; [done|]. rewrite Forall_forall in Hx |- *.
  intros y [_ Hy]%list_elem_of_filter. by apply Hx.
Qed.

Lemma StronglySorted_lookup R l i j a b :
  StronglySorted R l → (i < j)%nat →
  l !! i = Some a → l !! j = Some b → R a b.
Proof.
  intros Hl. revert i j. induction Hl as [|x l Hl IH Hx]; intros i j Hij Hi Hj.
  { by rewrite lookup_nil in Hi. }
  destruct j as [|j]; [lia|]. destruct i as [|i]; simpl in *.
  - simplify_eq. rewrite Forall_forall in Hx.
    apply Hx. by eapply list_elem_of_lookup_2.
  - eapply (IH i j); [lia|done..].
Qed.

Lemma StronglySorted_NoDup l : NoDup l ↔ StronglySorted (≠) l.
Proof.
  split.
  - induction 1 as [|x l Hx Hl IH]; constructor; [done|].
    rewrite Forall_forall. by intros y Hy ->.
  - induction 1 as [|x l Hl IH Hx]; constructor; [|done].
    rewrite Forall_forall in Hx. intros Hin. by apply (Hx x).
Qed.
End strongly_sorted.

Lemma StronglySorted_fmap {A B} (R : relation B) (f : A → B) (l : list A) :
  StronglySorted (λ a b, R (f a) (f b)) l ↔ StronglySorted R (f <$> l).
Proof.
  induction l as [|x l IH]; simpl.
  { split; constructor. }
  rewrite !StronglySorted_cons, IH, Forall_fmap. done.
Qed.

(** ** Sorting

    Insertion sort over a boolean comparison.  An element is put in front of
    the first element it is below or equal to, which makes the sort stable:
    elements that compare equal keep the order they had in the input. *)

Section sorting.
Context {A : Type} (leb : A → A → bool).

Fixpoint insert_sorted (x : A) (l : list A) : list A :=
  match l with
  | [] => [x]
  | y :: l' => if leb x y then x :: y :: l' else y :: insert_sorted x l'
  end.

Definition isort (l : list A) : list A := foldr insert_sorted [] l.

Lemma insert_sorted_Permutation x l : insert_sorted x l ≡ₚ x :: l.
Proof.
  induction l as [|y l IH]; simpl; [done|].
  destruct (leb x y); [done|].
  rewrite IH. apply Permutation_swap.
Qed.

Lemma isort_Permutation l : isort l ≡ₚ l.
Proof.
  induction l as [|x l IH]; simpl; [done|].
  by rewrite insert_sorted_Permutation, IH.
Qed.

Lemma length_isort l : length (isort l) = length l.
Proof. by rewrite isort_Permutation. Qed.

Lemma elem_of_isort x l : x ∈ isort l ↔ x ∈ l.
Proof. by rewrite isort_Permutation. Qed.

Lemma NoDup_isort l : NoDup l → NoDup (isort l).
Proof. by rewrite isort_Permutation. Qed.

Hypothesis leb_total : ∀ x y, leb x y = true ∨ leb y x = true.
Hypothesis leb_trans : ∀ x y z, leb x y = true → leb y z = true → leb x z = true.

(** The order of the output: ascending, and where two elements compare
    equal, related by whatever relation [P] ordered the input. *)
Definition sorted_stably (P : relation A) : relation A :=
  λ a b, leb a b = true ∧ (leb b a = true → P a b).

Lemma insert_sorted_stable (P : relation A) x l :
  Forall (P x) l →
  StronglySorted (sorted_stably P) l →
  StronglySorted (sorted_stably P) (insert_sorted x l).
Proof.
  intros HP Hl. induction Hl as [|y l Hl IH Hy]; simpl.
  { repeat constructor. }
  apply Forall_cons in HP as [HPy HP].
  destruct (leb x y) eqn:Hxy.
  - constructor; [by constructor|].
    constructor; [by split|].
    rewrite Forall_forall in Hy, HP |- *. intros z Hz.
    destruct (Hy z Hz) as [Hyz _]. split; [by eauto|]. intros _. by apply HP.
  - constructor; [by apply IH|].
    rewrite insert_sorted_Permutation. constructor; [|done].
    destruct (leb_total x y) as [?|Hyx]; [congruence|].
    split; [done|]. congruence.
Qed.

Lemma isort_stable (P : relation A) l :
  StronglySorted P l → StronglySorted (sorted_stably P) (isort l).
Proof.
  induction 1 as [|x l Hl IH Hx]; simpl; [constructor|].
  apply insert_sorted_stable; [|done].
  by rewrite isort_Permutation.
Qed.

Lemma isort_sorted l : StronglySorted (λ a b, leb a b = true) (isort l).
Proof.
  assert (StronglySorted (λ _ _ : A, True) l) as Hl.
  { induction l; constructor; [done|]. by apply Forall_true. }
  apply (isort_stable _) in Hl.
  eapply StronglySorted_weaken; [|done]. by intros a b _ _ [? _].
Qed.
End sorting.

(** ** Numbers

    [sum], [mean] and Python's [round(x, 2)] on exact rationals. *)

Definition Qsum (xs : list Q) : Q := foldr Qplus 0%Q xs.

(** [round]: to the nearest integer, a tie going to the even neighbour. *)
Definition round_half_even (q : Q) : Z :=
  let f := Qfloor q in
  match (q - inject_Z f ?= 1 # 2)%Q with
  | Lt => f
  | Gt => (f + 1)%Z
  | Eq => if Z.even f then f else (f + 1)%Z
  end.

(** [round(float(x), 2)] *)
Definition round2 (q : Q) : Q := (inject_Z (round_half_even (q * 100)) / 100)%Q.

Lemma Qsum_Permutation xs ys : xs ≡ₚ ys → (Qsum xs == Qsum ys)%Q.
Proof.
  induction 1 as [|x xs ys _ IH|x y xs|xs ys zs _ IH1 _ IH2]; simpl.
  - reflexivity.
  - by rewrite IH.
  - ring.
  - by rewrite IH1.
Qed.

Global Instance round_half_even_proper : Proper (Qeq ==> eq) round_half_even.
Proof.
  intros x y Hxy. unfold round_half_even.
  rewrite (Qfloor_comp _ _ Hxy).
  assert (x - inject_Z (Qfloor y) == y - inject_Z (Qfloor y))%Q as ->
    by (by rewrite Hxy).
  done.
Qed.

Global Instance round2_proper : Proper (Qeq ==> Qeq) round2.
Proof. intros x y Hxy. unfold round2. by rewrite Hxy. Qed.

Lemma round_half_even_bounds q :
  (Qfloor q ≤ round_half_even q ≤ Qfloor q + 1)%Z.
Proof.
  unfold round_half_even.
  destruct (_ ?= _)%Q; [destruct (Z.even _)|..]; lia.
Qed.

Lemma round_half_even_mono x y :
  (x <= y)%Q → (round_half_even x ≤ round_half_even y)%Z.
Proof.
  intros Hxy. pose proof (Qfloor_resp_le _ _ Hxy) as Hf.
  destruct (decide (Qfloor x = Qfloor y)) as [Heq|Hne].
  - unfold round_half_even. rewrite Heq.
    assert (x - inject_Z (Qfloor y) <= y - inject_Z (Qfloor y))%Q as Hr.
    { apply Qplus_le_l. done. }
    destruct (Qcompare_spec (x - inject_Z (Qfloor y)) (1 # 2)) as [Hx|Hx|Hx];
      destruct (Qcompare_spec (y - inject_Z (Qfloor y)) (1 # 2)) as [Hy|Hy|Hy];
      try destruct (Z.even _); try lia.
    + exfalso. rewrite Hx in Hr. by apply Qle_not_lt in Hr.
    + exfalso. apply (Qlt_irrefl (1 # 2)).
      eapply Qlt_le_trans; [exact Hx|]. by rewrite <-Hy.
    + exfalso. apply (Qlt_irrefl (1 # 2)).
      eapply Qlt_le_trans; [exact Hx|]. eapply Qle_trans; [exact Hr|].
      by apply Qlt_le_weak.
  - pose proof (round_half_even_bounds x). pose proof (round_half_even_bounds y).
    lia.
Qed.

Lemma round2_mono x y : (x <= y)%Q → (round2 x <= round2 y)%Q.
Proof.
  intros Hxy. unfold round2.
  apply Qmult_le_compat_r; [|done].
  rewrite <-Zle_Qle. apply round_half_even_mono.
  by apply Qmult_le_compat_r.
Qed.

Lemma round2_inject_Z z : (round2 (inject_Z z) == inject_Z z)%Q.
Proof.
  unfold round2, round_half_even.
  assert (inject_Z z * 100 == inject_Z (z * 100))%Q as Hz.
  { by rewrite inject_Z_mult. }
  rewrite (Qfloor_comp _ _ Hz), Qfloor_Z.
  assert ((inject_Z z * 100 - inject_Z (z * 100) ?= 1 # 2)%Q = Lt) as ->.
  { rewrite <-Qlt_alt, Hz. by ring_simplify. }
  rewrite inject_Z_mult. by field.
Qed.

(** ** The data frame

    [Transaction] is a row of [df] as loaded (lines 9 and 16); [Row] is a row
    once line 12 has added the [revenue] column. *)

Record Transaction := {
  date : Z;          (* datetime64[ns]: nanoseconds since the epoch *)
  region : string;
  product : string;
  units : Q;
  price : Q
}.

Record Row := { txn :> Transaction; revenue : Q }.

Definition day_ns : Z := 86400000000000.

(** [df["revenue"] = df["units"] * df["price"]] *)
Definition add_revenue (t : Transaction) : Row :=
  {| txn := t; revenue := (units t * price t)%Q |}.

Definition derive (data : list Transaction) : list Row := add_revenue <$> data.

(** ** [groupby]

    With the default [sort=True] the group keys are the distinct key values in
    ascending order; every group keeps its rows in frame order. *)

Section groupby.
Context {R K : Type} `{EqDecision K} (leb : K → K → bool) (key : R → K).

Definition group_keys (df : list R) : list K :=
  isort leb (remove_dups (key <$> df)).

Definition groupby (df : list R) : list (K * list R) :=
  (λ k, (k, filter (λ r, key r = k) df)) <$> group_keys df.
End groupby.

(** ** The four metrics *)

(** [len(df)] *)
Definition row_count (df : list Row) : nat := length df.

(** [df["region"].nunique()] *)
Definition regions_count (df : list Row) : nat :=
  length (remove_dups ((λ r : Row, region r) <$> df)).

Definition n : nat := 3.

(** [df.groupby("product")["revenue"].sum()]: a series indexed by product. *)
Definition product_revenue (df : list Row) : list (string * Q) :=
  (λ kg : string * list Row, (kg.1, Qsum (revenue <$> kg.2)))
    <$> groupby String.leb (λ r : Row, product r) df.

Definition value_leb (a b : string * Q) : bool := Qle_bool a.2 b.2.

(** [.sort_values(ascending=False)]: the values are reversed, sorted in
    ascending order, and the result reversed. *)
Definition sort_values_descending (s : list (string * Q)) : list (string * Q) :=
  reverse (isort value_leb (reverse s)).

(** [.head(n).reset_index()] *)
Definition top_products (df : list Row) : list (string * Q) :=
  take n (sort_values_descending (product_revenue df)).

(** The list of [{"product": ..., "revenue": round(float(...), 2)}]. *)
Definition top_products_list (df : list Row) : list (string * Q) :=
  (λ pr : string * Q, (pr.1, round2 pr.2)) <$> top_products df.

(** A row of the daily frame: one per (region, date) pair. *)
Record Daily := { d_region : string; d_date : Z; d_revenue : Q }.

Definition region_date (r : Row) : string * Z := (region r, date r).

(** Keys of the two-column [groupby] are ordered by region, then date. *)
Definition region_date_leb (a b : string * Z) : bool :=
  match String.compare a.1 b.1 with
  | Lt => true
  | Gt => false
  | Eq => (a.2 <=? b.2)%Z
  end.

(** [df.groupby(['region', 'date'])['revenue'].sum().reset_index()] *)
Definition daily_sums (df : list Row) : list Daily :=
  (λ kg : (string * Z) * list Row,
     {| d_region := kg.1.1; d_date := kg.1.2; d_revenue := Qsum (revenue <$> kg.2) |})
    <$> groupby region_date_leb region_date df.

Definition date_leb (a b : Daily) : bool := (d_date a <=? d_date b)%Z.

(** [.set_index('date').sort_index()] *)
Definition daily_region_revenue (df : list Row) : list Daily :=
  isort date_leb (daily_sums df).

(** [rolling(window='7D', min_periods=1)] *)
Definition window : Z := 7 * day_ns.
Definition min_periods : nat := 1.

(** The mean of a window: NaN ([None]) below [min_periods] observations. *)
Definition mean (xs : list Q) : option Q :=
  if decide (length xs < min_periods)
  then None
  else Some (Qsum xs / inject_Z (Z.of_nat (length xs)))%Q.

(** The rows of the window that ends at row [i], whose time stamp is [t]:
    the rows up to [i] whose time stamp is later than [t - window]. *)
Definition rolling_window (g : list Daily) (i : nat) (t : Z) : list Daily :=
  filter (λ x, (t - window < d_date x)%Z) (take (S i) g).

(** [group['revenue'].rolling(window='7D', min_periods=1).mean()] *)
Definition rolling_mean (g : list Daily) : list (option Q) :=
  imap (λ i x, mean (d_revenue <$> rolling_window g i (d_date x))) g.

(** [rolling_avg.iloc[-1] if not rolling_avg.empty else np.nan] *)
Definition last_rolling_value (g : list Daily) : option Q :=
  match last (rolling_mean g) with
  | Some v => v
  | None => None
  end.

(** [round(float(v), 2) if pd.notna(v) else None] *)
Definition rolling_entry (g : list Daily) : option Q :=
  round2 <$> last_rolling_value g.

(** [daily_region_revenue.groupby('region')] *)
Definition region_groups (df : list Row) : list (string * list Daily) :=
  groupby String.leb d_region (daily_region_revenue df).

(** The loop filling the dictionary. *)
Definition rolling_7d_revenue_by_region (df : list Row) : gmap string (option Q) :=
  foldl (λ m (rg : string * list Daily), <[rg.1 := rolling_entry rg.2]> m)
    ∅ (region_groups df).

(** ** The report *)

Record Report := {
  out_row_count : nat;
  out_regions_count : nat;
  out_top_n_products_by_revenue : list (string * Q);
  out_rolling_7d_revenue_by_region : gmap string (option Q)
}.

Definition result_json (df : list Row) : Report :=
  {| out_row_count := row_count df;
     out_regions_count := regions_count df;
     out_top_n_products_by_revenue := top_products_list df;
     out_rolling_7d_revenue_by_region := rolling_7d_revenue_by_region df |}.

Definition main (data : list Transaction) : Report := result_json (derive data).

(** ** Facts about [groupby] *)

Section groupby_facts.
Context {R K : Type} `{EqDecision K} (leb : K → K → bool) (key : R → K).
Implicit Types (df : list R) (k : K).

Lemma elem_of_group_keys k df : k ∈ group_keys leb key df ↔ k ∈ key <$> df.
Proof. unfold group_keys. by rewrite elem_of_isort, elem_of_remove_dups. Qed.

Lemma NoDup_group_keys df : NoDup (group_keys leb key df).
Proof. apply NoDup_isort, NoDup_remove_dups. Qed.

Lemma length_groupby df :
  length (groupby leb key df) = length (remove_dups (key <$> df)).
Proof. unfold groupby, group_keys. by rewrite length_fmap, length_isort. Qed.

Lemma groupby_keys df : (groupby leb key df).*1 = group_keys leb key df.
Proof.
  unfold groupby. rewrite <-list_fmap_compose.
  rewrite <-(list_fmap_id (group_keys leb key df)) at 2. done.
Qed.

Lemma elem_of_groupby k g df :
  (k, g) ∈ groupby leb key df ↔
  k ∈ key <$> df ∧ g = filter (λ r, key r = k) df.
Proof.
  unfold groupby. rewrite list_elem_of_fmap. split.
  - intros (k' & [= -> ->] & Hk). by rewrite <-elem_of_group_keys.
  - intros [Hk ->]. exists k. by rewrite elem_of_group_keys.
Qed.

(** No group is empty. *)
Lemma groupby_nonempty k g df : (k, g) ∈ groupby leb key df → g ≠ [].
Proof.
  rewrite elem_of_groupby. intros [(r & -> & Hr)%list_elem_of_fmap ->] Hnil.
  assert (r ∈ filter (λ r', key r' = key r) df) as Hin
    by (by apply list_elem_of_filter).
  rewrite Hnil in Hin. by apply not_elem_of_nil in Hin.
Qed.

Hypothesis leb_total : ∀ x y, leb x y = true ∨ leb y x = true.
Hypothesis leb_trans : ∀ x y z, leb x y = true → leb y z = true → leb x z = true.

(** The keys come out in strictly ascending order. *)
Lemma group_keys_sorted df :
  StronglySorted (λ a b, leb a b = true ∧ a ≠ b) (group_keys leb key df).
Proof.
  unfold group_keys.
  pose proof (NoDup_remove_dups (key <$> df)) as Hnd.
  apply StronglySorted_NoDup, (isort_stable leb leb_total leb_trans) in Hnd.
  eapply StronglySorted_weaken; [|exact Hnd].
  intros a b _ _ [Hab Hne]. split; [done|].
  intros ->. by apply Hne.
Qed.
End groupby_facts.

(** ** Order of strings and of values *)

Lemma string_leb_trans x y z :
  String.leb x y = true → String.leb y z = true → String.leb x z = true.
Proof.
  intros Hxy%Is_true_true Hyz%Is_true_true. apply Is_true_true.
  by apply (transitivity (R:=String.le) (y:=y)).
Qed.

Lemma string_ltb_leb_ne x y :
  String.leb x y = true → x ≠ y → String.ltb x y = true.
Proof.
  unfold String.leb, String.ltb. intros Hle Hne.
  destruct (String.compare x y) eqn:Hc; [|done..].
  by apply String.compare_eq_iff in Hc.
Qed.

Lemma value_leb_total a b : value_leb a b = true ∨ value_leb b a = true.
Proof.
  unfold value_leb. rewrite !Qle_bool_iff.
  destruct (Qlt_le_dec a.2 b.2) as [?%Qlt_le_weak|?]; auto.
Qed.

Lemma value_leb_trans a b c :
  value_leb a b = true → value_leb b c = true → value_leb a c = true.
Proof. unfold value_leb. rewrite !Qle_bool_iff. apply Qle_trans. Qed.

(** [sort_values] puts the larger values first, and leaves values that are
    equal in the order [P] they had in the series. *)
Lemma sort_values_descending_stable (P : relation (string * Q)) s :
  StronglySorted P s →
  StronglySorted (λ a b, (b.2 <= a.2)%Q ∧ ((a.2 <= b.2)%Q → P a b))
    (sort_values_descending s).
Proof.
  intros Hs%StronglySorted_reverse.
  apply (isort_stable value_leb value_leb_total value_leb_trans) in Hs.
  apply StronglySorted_reverse in Hs.
  eapply StronglySorted_weaken; [|exact Hs].
  intros a b _ _ [Hba HP]. unfold value_leb in *.
  rewrite Qle_bool_iff in Hba. split; [done|].
  intros Hab. apply HP. by apply Qle_bool_iff.
Qed.

Lemma length_sort_values_descending s :
  length (sort_values_descending s) = length s.
Proof.
  unfold sort_values_descending.
  by rewrite length_reverse, length_isort, length_reverse.
Qed.

Lemma elem_of_sort_values_descending x s :
  x ∈ sort_values_descending s ↔ x ∈ s.
Proof.
  unfold sort_values_descending.
  by rewrite elem_of_reverse, elem_of_isort, elem_of_reverse.
Qed.

(** ** The ranking of products *)

(** The summed revenue of a product. *)
Definition product_total (df : list Row) (p : string) : Q :=
  Qsum (revenue <$> filter (λ r : Row, product r = p) df).

Lemma elem_of_product_revenue df p v :
  (p, v) ∈ product_revenue df →
  p ∈ (λ r : Row, product r) <$> df ∧ v = product_total df p.
Proof.
  unfold product_revenue. intros ([k g] & [= -> ->] & Hkg)%list_elem_of_fmap.
  apply elem_of_groupby in Hkg as [Hk ->]. done.
Qed.

Lemma product_revenue_sorted df :
  StronglySorted (λ a b, String.ltb a.1 b.1 = true) (product_revenue df).
Proof.
  unfold product_revenue. apply StronglySorted_fmap. simpl.
  apply (StronglySorted_fmap (λ a b, String.ltb a b = true) fst).
  rewrite groupby_keys.
  eapply StronglySorted_weaken;
    [|apply (group_keys_sorted _ _ String.leb_total string_leb_trans)].
  intros a b _ _ [??]. by apply string_ltb_leb_ne.
Qed.

Lemma elem_of_top_products df x : x ∈ top_products df → x ∈ product_revenue df.
Proof.
  unfold top_products. intros Hx%elem_of_take.
  destruct Hx as (i & Hx & _).
  apply elem_of_sort_values_descending. by eapply list_elem_of_lookup_2.
Qed.

Lemma top_products_sorted df :
  StronglySorted
    (λ a b, (b.2 <= a.2)%Q ∧ ((a.2 <= b.2)%Q → String.ltb a.1 b.1 = true))
    (top_products df).
Proof.
  apply StronglySorted_take, sort_values_descending_stable, product_revenue_sorted.
Qed.

Lemma derive_product data :
  (λ r : Row, product r) <$> derive data = product <$> data.
Proof. unfold derive. by rewrite <-list_fmap_compose. Qed.

Lemma derive_region data :
  (λ r : Row, region r) <$> derive data = region <$> data.
Proof. unfold derive. by rewrite <-list_fmap_compose. Qed.

(** ** The length and the order of the top-N list *)

(** Position at which a product label first occurs in the input. *)
Definition first_seen (data : list Transaction) (p : string) : option nat :=
  fst <$> list_find (λ t : Transaction, product t = p) data.

(** Two rows, product B before product A, both with revenue 10. *)
Definition tie_data : list Transaction :=
  [ {| date := 0; region := "North"; product := "B"; units := 1; price := 10 |};
    {| date := 0; region := "North"; product := "A"; units := 2; price := 5 |} ].

(** C4: the list has [min 3 k] entries, [k] the number of distinct products. *)
Theorem top_n_length data :
  length (out_top_n_products_by_revenue (main data))
  = min 3 (length (remove_dups (product <$> data))).
Proof.
  simpl. unfold top_products_list, top_products, product_revenue.
  rewrite length_fmap, length_take, length_sort_values_descending, length_fmap.
  by rewrite length_groupby, derive_product.
Qed.

(** C5: every entry's revenue is at least the revenue of the entry after it. *)
Theorem top_n_sorted_descending data :
  Sorted (λ a b, (b.2 <= a.2)%Q) (out_top_n_products_by_revenue (main data)).
Proof.
  apply StronglySorted_Sorted. simpl. unfold top_products_list.
  apply StronglySorted_fmap. simpl.
  eapply StronglySorted_weaken; [|apply top_products_sorted].
  intros a b _ _ [Hle _]. by apply round2_mono.
Qed.

(** ** Lists: filters and dictionary filling *)

Section filter_facts.
Context {A : Type} (P : A → Prop) `{∀ x, Decision (P x)}.
Implicit Types l : list A.

Lemma filter_all l : Forall P l → filter P l = l.
Proof.
  induction 1 as [|x l Hx _ IH]; [done|].
  by rewrite filter_cons_True, IH.
Qed.

Lemma filter_none l : Forall (λ x, ¬ P x) l → filter P l = [].
Proof.
  induction 1 as [|x l Hx _ IH]; [done|].
  by rewrite filter_cons_False.
Qed.

Lemma filter_ext_in (Q : A → Prop) `{∀ x, Decision (Q x)} l :
  (∀ x, x ∈ l → P x ↔ Q x) → filter P l = filter Q l.
Proof.
  induction l as [|x l IH]; intros HPQ; [done|].
  rewrite !filter_cons, IH by (intros y Hy; apply HPQ; by right).
  pose proof (HPQ x) as Hx. repeat case_decide; [done| | |done].
  - exfalso. rewrite <-Hx in *; [done|by left].
  - exfalso. rewrite Hx in *; [done|by left].
Qed.

Lemma filter_fmap_comm {B} (f : B → A) (l : list B) :
  filter P (f <$> l) = f <$> filter (λ y, P (f y)) l.
Proof.
  induction l as [|y l IH]; [done|].
  rewrite fmap_cons, !filter_cons, IH. by case_decide.
Qed.
End filter_facts.

Section fill.
Context {G V : Type} (f : G → V).
Implicit Types (l : list (string * G)) (m : gmap string V).

(** A dictionary filled by a loop over (key, group) pairs. *)
Definition fill l : gmap string V :=
  foldl (λ m (kg : string * G), <[kg.1 := f kg.2]> m) ∅ l.

Lemma fill_snoc l kg : fill (l ++ [kg]) = <[kg.1 := f kg.2]> (fill l).
Proof. unfold fill. by rewrite foldl_snoc. Qed.

Lemma dom_fill l : dom (fill l) = list_to_set l.*1.
Proof.
  induction l as [|kg l IH] using rev_ind; [apply dom_empty_L|].
  rewrite fill_snoc, dom_insert_L, IH, fmap_app.
  change (fst <$> [kg]) with [kg.1]. rewrite list_to_set_snoc_L.
  apply (comm_L (∪)).
Qed.

Lemma lookup_fill l k g :
  NoDup l.*1 → (k, g) ∈ l → fill l !! k = Some (f g).
Proof.
  induction l as [|kg l IH] using rev_ind; intros Hnd Hin.
  { by apply not_elem_of_nil in Hin. }
  rewrite fill_snoc. rewrite fmap_app in Hnd.
  apply NoDup_app in Hnd as (Hl & Hfresh & _).
  apply elem_of_app in Hin as [Hin|Hin].
  - rewrite lookup_insert_ne; [by apply IH|].
    intros Heq. apply (Hfresh k).
    + apply list_elem_of_fmap. by exists (k, g).
    + simpl. rewrite Heq. by left.
  - apply list_elem_of_singleton in Hin as <-. simpl.
    by rewrite lookup_insert_eq.
Qed.
End fill.

(** ** The daily frame *)

(** Revenue of a region on a date: the sum over the rows sharing the pair. *)
Definition daily_total (df : list Row) (r : string) (d : Z) : Q :=
  Qsum (revenue <$> filter (λ x : Row, region x = r ∧ date x = d) df).

(** The distinct dates on which a region has rows. *)
Definition region_dates (df : list Row) (r : string) : list Z :=
  remove_dups ((λ x : Row, date x) <$> filter (λ x : Row, region x = r) df).

Definition daily_key (x : Daily) : string * Z := (d_region x, d_date x).

Lemma date_leb_total a b : date_leb a b = true ∨ date_leb b a = true.
Proof. unfold date_leb. rewrite !Z.leb_le. lia. Qed.

Lemma date_leb_trans a b c :
  date_leb a b = true → date_leb b c = true → date_leb a c = true.
Proof. unfold date_leb. rewrite !Z.leb_le. lia. Qed.

Lemma daily_sums_keys df :
  daily_key <$> daily_sums df = group_keys region_date_leb region_date df.
Proof.
  unfold daily_sums. rewrite <-list_fmap_compose, <-groupby_keys.
  apply list_fmap_ext. by intros _ [[??] ?] _.
Qed.

Lemma elem_of_daily_sums df x :
  x ∈ daily_sums df →
  d_revenue x = daily_total df (d_region x) (d_date x).
Proof.
  unfold daily_sums. intros ([[r d] g] & -> & Hg)%list_elem_of_fmap.
  apply elem_of_groupby in Hg as [_ ->]. simpl. unfold daily_total.
  do 2 f_equal. apply list_filter_iff. intros y. unfold region_date.
  split; [by intros [= -> ->]|by intros [-> ->]].
Qed.

Lemma daily_region_revenue_Permutation df :
  daily_region_revenue df ≡ₚ daily_sums df.
Proof. apply isort_Permutation. Qed.

Lemma elem_of_daily_keys df r d :
  (r, d) ∈ daily_key <$> daily_region_revenue df ↔
  ∃ x : Row, x ∈ df ∧ region x = r ∧ date x = d.
Proof.
  rewrite daily_region_revenue_Permutation, daily_sums_keys, elem_of_group_keys.
  rewrite list_elem_of_fmap. unfold region_date.
  split.
  - intros (x & [= -> ->] & Hx). by exists x.
  - intros (x & Hx & <- & <-). by exists x.
Qed.

Lemma daily_region_revenue_sorted df :
  StronglySorted
    (λ a b, (d_date a ≤ d_date b)%Z ∧ ((d_date b ≤ d_date a)%Z → daily_key a ≠ daily_key b))
    (daily_region_revenue df).
Proof.
  pose proof (NoDup_group_keys region_date_leb region_date df) as Hnd.
  rewrite <-daily_sums_keys in Hnd.
  apply StronglySorted_NoDup, StronglySorted_fmap in Hnd.
  apply (isort_stable date_leb date_leb_total date_leb_trans) in Hnd.
  eapply StronglySorted_weaken; [|exact Hnd].
  intros a b _ _ [Hab HP]. unfold date_leb in *. rewrite Z.leb_le in Hab.
  split; [done|]. intros Hba. apply HP. by apply Z.leb_le.
Qed.

(** The rows of one region in the daily frame. *)
Definition region_rows (df : list Row) (r : string) : list Daily :=
  filter (λ x, d_region x = r) (daily_region_revenue df).

Lemma elem_of_region_groups df r g :
  (r, g) ∈ region_groups df ↔
  r ∈ (λ x : Row, region x) <$> df ∧ g = region_rows df r.
Proof.
  unfold region_groups. rewrite elem_of_groupby.
  assert (r ∈ d_region <$> daily_region_revenue df
          ↔ r ∈ (λ x : Row, region x) <$> df) as ->; [|done].
  rewrite !list_elem_of_fmap. split.
  - intros (x & -> & Hx).
    assert ((d_region x, d_date x) ∈ daily_key <$> daily_region_revenue df) as Hk
      by (apply list_elem_of_fmap; by exists x).
    apply elem_of_daily_keys in Hk as (y & Hy & Hr & _). by exists y.
  - intros (y & -> & Hy).
    assert ((region y, date y) ∈ daily_key <$> daily_region_revenue df) as Hk
      by (apply elem_of_daily_keys; by exists y).
    apply list_elem_of_fmap in Hk as (x & [= Hr _] & Hx). by exists x.
Qed.

Lemma NoDup_region_groups df : NoDup (region_groups df).*1.
Proof. unfold region_groups. rewrite groupby_keys. apply NoDup_group_keys. Qed.

Lemma elem_of_region_rows df r x :
  x ∈ region_rows df r →
  d_region x = r ∧ d_revenue x = daily_total df r (d_date x).
Proof.
  unfold region_rows. intros [<- Hx]%list_elem_of_filter. split; [done|].
  apply elem_of_daily_sums. by rewrite <-daily_region_revenue_Permutation.
Qed.

(** Within a region the rows are in strictly increasing date order. *)
Lemma region_rows_sorted df r :
  StronglySorted (λ a b, (d_date a < d_date b)%Z) (region_rows df r).
Proof.
  unfold region_rows.
  eapply StronglySorted_weaken;
    [|apply StronglySorted_filter, daily_region_revenue_sorted].
  intros a b [Ha _]%list_elem_of_filter [Hb _]%list_elem_of_filter [Hle Hne].
  destruct (decide (d_date b ≤ d_date a)%Z) as [Hba|]; [|lia].
  exfalso. apply (Hne Hba). unfold daily_key. f_equal; [congruence|lia].
Qed.

Lemma region_rows_dates df r : d_date <$> region_rows df r ≡ₚ region_dates df r.
Proof.
  apply NoDup_Permutation.
  - apply StronglySorted_NoDup.
    apply (StronglySorted_fmap (≠) d_date).
    eapply StronglySorted_weaken; [|apply region_rows_sorted].
    intros a b _ _ ?. simpl in *. lia.
  - apply NoDup_remove_dups.
  - intros d. unfold region_dates, region_rows.
    rewrite elem_of_remove_dups, !list_elem_of_fmap. split.
    + intros (x & -> & [<- Hx]%list_elem_of_filter).
      assert ((d_region x, d_date x) ∈ daily_key <$> daily_region_revenue df) as Hk
        by (apply list_elem_of_fmap; by exists x).
      apply elem_of_daily_keys in Hk as (y & Hy & Hr & Hd).
      exists y. split; [done|]. by apply list_elem_of_filter.
    + intros (y & -> & [<- Hy]%list_elem_of_filter).
      assert ((region y, date y) ∈ daily_key <$> daily_region_revenue df) as Hk
        by (apply elem_of_daily_keys; by exists y).
      apply list_elem_of_fmap in Hk as (x & [= Hr Hd] & Hx).
      exists x. split; [done|]. by apply list_elem_of_filter.
Qed.

(** ** The rolling mean *)

(** The mean of the daily totals of a region over a list of dates. *)
Definition mean_over (df : list Row) (r : string) (ds : list Z) : Q :=
  (Qsum (daily_total df r <$> ds) / inject_Z (Z.of_nat (length ds)))%Q.

(** The window of the program: the time stamps [d'] with [d - 7D < d' <= d]. *)
Definition trailing_window_mean (df : list Row) (r : string) (d : Z) : Q :=
  mean_over df r
    (filter (λ d', (d - window < d' ∧ d' ≤ d)%Z) (region_dates df r)).

(** The window of the specification: the dates [d'] with
    [d - 6 days <= d' <= d]. *)
Definition calendar_window_mean (df : list Row) (r : string) (d : Z) : Q :=
  mean_over df r
    (filter (λ d', (d - 6 * day_ns ≤ d' ∧ d' ≤ d)%Z) (region_dates df r)).

Lemma mean_Some xs :
  xs ≠ [] → mean xs = Some (Qsum xs / inject_Z (Z.of_nat (length xs)))%Q.
Proof.
  intros Hne. unfold mean, min_periods. case_decide; [|done].
  destruct xs; [done|simpl in *; lia].
Qed.

(** In a frame in strictly increasing date order, the rows up to a row are
    the rows whose date is at most its date. *)
Lemma rolling_window_sorted g i x :
  StronglySorted (λ a b, (d_date a < d_date b)%Z) g →
  g !! i = Some x →
  rolling_window g i (d_date x)
  = filter (λ y, (d_date x - window < d_date y ∧ d_date y ≤ d_date x)%Z) g.
Proof.
  intros Hg Hi. unfold rolling_window.
  rewrite <-(take_drop (S i) g) at 2. rewrite filter_app.
  rewrite (filter_none _ (drop (S i) g)), app_nil_r.
  - apply filter_ext_in. intros y (j & Hj & Hlt)%elem_of_take.
    assert (d_date y ≤ d_date x)%Z; [|tauto].
    destruct (decide (j = i)) as [->|]; [by simplify_eq|].
    assert (d_date y < d_date x)%Z; [|lia].
    apply (StronglySorted_lookup _ g j i y x Hg); [lia|done..].
  - apply Forall_forall. intros y (j & Hj)%list_elem_of_lookup.
    rewrite lookup_drop in Hj.
    assert (d_date x < d_date y)%Z; [|lia].
    apply (StronglySorted_lookup _ g i (S i + j) x y Hg); [lia|done..].
Qed.

(** The mean over the rows of a region whose date lies in a window [W]. *)
Lemma region_window_mean df r (W : Z → Prop) `{∀ d, Decision (W d)} x :
  x ∈ region_rows df r → W (d_date x) →
  ∃ v, mean (d_revenue <$> filter (λ y, W (d_date y)) (region_rows df r)) = Some v ∧
       (v == mean_over df r (filter W (region_dates df r)))%Q.
Proof.
  intros Hx HW.
  pose proof (filter_fmap_comm W d_date (region_rows df r)) as Hcomm.
  remember (filter (λ y, W (d_date y)) (region_rows df r)) as ws eqn:Hws.
  assert (x ∈ ws) as Hin by (subst ws; by apply list_elem_of_filter).
  assert (d_revenue <$> ws = daily_total df r <$> (d_date <$> ws)) as Hrev.
  { rewrite <-list_fmap_compose. apply list_fmap_ext.
    intros j y Hy%list_elem_of_lookup_2. subst ws.
    apply list_elem_of_filter in Hy as [_ Hy].
    by apply elem_of_region_rows in Hy as [_ ->]. }
  assert (d_date <$> ws ≡ₚ filter W (region_dates df r)) as Hperm.
  { rewrite <-Hcomm. by rewrite region_rows_dates. }
  clear Hws Hcomm.
  rewrite mean_Some
    by (destruct ws; [by apply not_elem_of_nil in Hin|by rewrite fmap_cons]).
  eexists. split; [done|]. unfold mean_over.
  rewrite Hrev, length_fmap.
  rewrite (Qsum_Permutation _ _ (fmap_Permutation (daily_total df r) _ _ Hperm)).
  by rewrite <-(Permutation_length Hperm), length_fmap.
Qed.

(** The value of the rolling series at every row of a region. *)
Lemma rolling_mean_lookup df r i x :
  region_rows df r !! i = Some x →
  ∃ v, rolling_mean (region_rows df r) !! i = Some (Some v) ∧
       (v == trailing_window_mean df r (d_date x))%Q.
Proof.
  intros Hi. unfold rolling_mean. rewrite list_lookup_imap, Hi. simpl.
  rewrite (rolling_window_sorted _ _ _ (region_rows_sorted df r) Hi).
  destruct (region_window_mean df r
              (λ d', (d_date x - window < d' ∧ d' ≤ d_date x)%Z) x)
    as (v & Hv & Heq).
  - by eapply list_elem_of_lookup_2.
  - unfold window, day_ns. lia.
  - exists v. split; [by rewrite Hv|done].
Qed.

(** Calendar dates: time stamps at midnight. *)
Definition calendar_dates (data : list Transaction) : Prop :=
  Forall (λ t : Transaction, (date t mod day_ns = 0)%Z) data.

Lemma elem_of_region_dates df r d :
  d ∈ region_dates df r ↔ ∃ x : Row, x ∈ df ∧ region x = r ∧ date x = d.
Proof.
  unfold region_dates. rewrite elem_of_remove_dups, list_elem_of_fmap. split.
  - intros (x & -> & [Hr Hx]%list_elem_of_filter). by exists x.
  - intros (x & Hx & Hr & <-). exists x. split; [done|].
    by apply list_elem_of_filter.
Qed.

Lemma region_dates_calendar data r d :
  calendar_dates data → d ∈ region_dates (derive data) r →
  (d mod day_ns = 0)%Z.
Proof.
  intros Hcal (x & Hx & _ & <-)%elem_of_region_dates.
  unfold derive in Hx. apply list_elem_of_fmap in Hx as (t & -> & Ht).
  unfold calendar_dates in Hcal. rewrite Forall_forall in Hcal. by apply Hcal.
Qed.

(** On calendar dates the two windows hold the same dates. *)
Lemma trailing_calendar_window data r d :
  calendar_dates data → (d mod day_ns = 0)%Z →
  trailing_window_mean (derive data) r d = calendar_window_mean (derive data) r d.
Proof.
  intros Hcal Hd. unfold trailing_window_mean, calendar_window_mean.
  f_equal. apply filter_ext_in. intros d' Hd'.
  apply (region_dates_calendar _ _ _ Hcal) in Hd'.
  apply Z.mod_divide in Hd as [a ->]; [|done].
  apply Z.mod_divide in Hd' as [b ->]; [|done].
  unfold window, day_ns. lia.
Qed.

Lemma mean_over_Permutation df r ds ds' :
  ds ≡ₚ ds' → (mean_over df r ds == mean_over df r ds')%Q.
Proof.
  intros Hperm. unfold mean_over.
  rewrite (Qsum_Permutation _ _ (fmap_Permutation (daily_total df r) _ _ Hperm)).
  by rewrite (Permutation_length Hperm).
Qed.

(** ** The dictionary of rolling values *)

(** [d] is the latest date on which region [r] has rows. *)
Definition is_latest (df : list Row) (r : string) (d : Z) : Prop :=
  d ∈ region_dates df r ∧ ∀ d', d' ∈ region_dates df r → (d' ≤ d)%Z.

Lemma region_rows_nonempty df r :
  r ∈ (λ x : Row, region x) <$> df → region_rows df r ≠ [].
Proof.
  intros Hr. apply (groupby_nonempty String.leb d_region r _ (daily_region_revenue df)).
  by apply elem_of_region_groups.
Qed.

Lemma last_is_latest df r x :
  last (region_rows df r) = Some x → is_latest df r (d_date x).
Proof.
  rewrite last_lookup. intros Hx. split.
  - rewrite <-region_rows_dates. apply list_elem_of_fmap.
    exists x. split; [done|]. by eapply list_elem_of_lookup_2.
  - intros d'. rewrite <-region_rows_dates.
    intros (y & -> & (j & Hj)%list_elem_of_lookup)%list_elem_of_fmap.
    pose proof (lookup_lt_Some _ _ _ Hj) as Hlt.
    destruct (decide (j = pred (length (region_rows df r)))) as [->|Hne].
    + by simplify_eq.
    + assert (d_date y < d_date x)%Z; [|lia].
      apply (StronglySorted_lookup _ _ j (pred (length (region_rows df r))) y x
               (region_rows_sorted df r)); [lia|done..].
Qed.

Lemma last_rolling_value_spec df r x :
  last (region_rows df r) = Some x →
  ∃ v, last_rolling_value (region_rows df r) = Some v ∧
       (v == trailing_window_mean df r (d_date x))%Q.
Proof.
  rewrite last_lookup. intros Hx. unfold last_rolling_value.
  assert (length (rolling_mean (region_rows df r)) = length (region_rows df r))
    as Hlen by apply length_imap.
  rewrite last_lookup, Hlen.
  destruct (rolling_mean_lookup _ _ _ _ Hx) as (v & -> & Hv). by exists v.
Qed.

Lemma rolling_lookup df r :
  r ∈ (λ x : Row, region x) <$> df →
  rolling_7d_revenue_by_region df !! r = Some (rolling_entry (region_rows df r)).
Proof.
  intros Hr.
  apply (lookup_fill rolling_entry (region_groups df) r (region_rows df r)).
  - apply NoDup_region_groups.
  - by apply elem_of_region_groups.
Qed.

Lemma dom_rolling df :
  dom (rolling_7d_revenue_by_region df)
  = list_to_set ((λ x : Row, region x) <$> df).
Proof.
  change (rolling_7d_revenue_by_region df)
    with (fill rolling_entry (region_groups df)).
  rewrite dom_fill.
  apply set_eq. intros r. rewrite !elem_of_list_to_set, list_elem_of_fmap. split.
  - intros ([r' g] & -> & Hg). by apply elem_of_region_groups in Hg as [? _].
  - intros Hr. exists (r, region_rows df r). split; [done|].
    by apply elem_of_region_groups.
Qed.

(** The value stored for a region: the window mean at its latest date,
    rounded to two decimals. *)
Lemma rolling_entry_spec df r :
  r ∈ (λ x : Row, region x) <$> df →
  ∃ d v, is_latest df r d ∧
         rolling_7d_revenue_by_region df !! r = Some (Some v) ∧
         (v == round2 (trailing_window_mean df r d))%Q.
Proof.
  intros Hr. rewrite (rolling_lookup _ _ Hr).
  destruct (last (region_rows df r)) as [x|] eqn:Hlast.
  - destruct (last_rolling_value_spec _ _ _ Hlast) as (v & Hv & Heq).
    exists (d_date x), (round2 v). split; [by apply last_is_latest|].
    unfold rolling_entry. rewrite Hv. split; [done|]. by rewrite Heq.
  - apply last_None in Hlast. by apply region_rows_nonempty in Hr.
Qed.

Lemma mean_over_singleton df r d : (mean_over df r [d] == daily_total df r d)%Q.
Proof. unfold mean_over. simpl. field. Qed.

(** ** Claims about the rolling dictionary *)


(** Rows on day 1 and on day 10 in one region. *)
Definition gap_data : list Transaction :=
  [ {| date := 1 * day_ns; region := "East"; product := "A"; units := 2; price := 5 |};
    {| date := 10 * day_ns; region := "East"; product := "B"; units := 3; price := 10 |} ].


(** One region, one date, two products. *)
Definition one_day (d : Z) (r pa pb : string) (ua pra ub prb : Q) : list Transaction :=
  [ {| date := d; region := r; product := pa; units := ua; price := pra |};
    {| date := d; region := r; product := pb; units := ub; price := prb |} ].

Lemma one_day_rolling d r pa pb ua pra ub prb :
  ∃ v, rolling_7d_revenue_by_region (derive (one_day d r pa pb ua pra ub prb)) !! r
       = Some (Some v) ∧
       (v == round2 (ua * pra + ub * prb))%Q.
Proof.
  set (df := derive (one_day d r pa pb ua pra ub prb)).
  assert (∀ x : Row, x ∈ df → region x = r ∧ date x = d) as Hrows.
  { intros x Hx. subst df. unfold derive, one_day in Hx.
    rewrite !fmap_cons, fmap_nil in Hx.
    apply elem_of_cons in Hx as [->|Hx]; [done|].
    by apply list_elem_of_singleton in Hx as ->. }
  assert (r ∈ (λ x : Row, region x) <$> df) as Hr by (subst df; by left).
  destruct (rolling_entry_spec _ _ Hr) as (d0 & v & [Hd0 _] & Hv & Heq).
  assert (d0 = d) as ->.
  { apply elem_of_region_dates in Hd0 as (x & Hx & _ & <-).
    by destruct (Hrows x Hx). }
  exists v. split; [done|]. rewrite Heq. apply round2_proper.
  unfold trailing_window_mean.
  assert (filter (λ d', (d - window < d' ∧ d' ≤ d)%Z) (region_dates df r) ≡ₚ [d])
    as Hperm.
  { apply NoDup_Permutation.
    - apply NoDup_filter, NoDup_remove_dups.
    - apply NoDup_singleton.
    - intros d'. rewrite list_elem_of_filter, list_elem_of_singleton. split.
      + intros [_ (x & Hx & _ & <-)%elem_of_region_dates].
        by destruct (Hrows x Hx).
      + intros ->. split; [unfold window, day_ns; lia|done]. }
  rewrite (mean_over_Permutation _ _ _ _ Hperm), mean_over_singleton.
  unfold daily_total.
  rewrite filter_all by (apply Forall_forall; intros x Hx; by apply Hrows).
  subst df. unfold derive, one_day. rewrite !fmap_cons, !fmap_nil. simpl. ring.
Qed.



(** ** The empty table *)

(** C8: the empty table gives the empty report. *)
Theorem empty_input :
  main [] = {| out_row_count := 0;
               out_regions_count := 0;
               out_top_n_products_by_revenue := [];
               out_rolling_7d_revenue_by_region := ∅ |}.
Proof. reflexivity. Qed.

(** ** Counting rows, regions and dictionary entries *)

Lemma length_remove_dups_le `{EqDecision A} (l : list A) :
  length (remove_dups l) ≤ length l.
Proof.
  induction l as [|x l IH]; simpl; [done|].
  case_decide; simpl; lia.
Qed.

Lemma size_list_to_set_remove_dups (l : list string) :
  size (list_to_set l : gset string) = length (remove_dups l).
Proof.
  rewrite <-(size_list_to_set (C:=gset string) (remove_dups l))
    by apply NoDup_remove_dups.
  f_equal. apply set_eq. intros x.
  by rewrite !elem_of_list_to_set, elem_of_remove_dups.
Qed.

(** ** The ranking: what is listed and what is left out *)

Lemma sort_values_descending_Permutation s : sort_values_descending s ≡ₚ s.
Proof.
  unfold sort_values_descending.
  by rewrite reverse_Permutation, isort_Permutation, reverse_Permutation.
Qed.

Lemma product_revenue_labels df :
  (product_revenue df).*1 = group_keys String.leb (λ r : Row, product r) df.
Proof.
  unfold product_revenue. rewrite <-list_fmap_compose.
  by rewrite <-(groupby_keys String.leb (λ r : Row, product r) df).
Qed.

Lemma product_revenue_elem df p :
  p ∈ (λ r : Row, product r) <$> df →
  (p, product_total df p) ∈ product_revenue df.
Proof.
  intros Hp. unfold product_revenue. apply list_elem_of_fmap.
  exists (p, filter (λ r : Row, product r = p) df). split; [done|].
  by apply elem_of_groupby.
Qed.

Lemma NoDup_top_products df : NoDup (top_products df).*1.
Proof.
  unfold top_products. rewrite fmap_take.
  eapply sublist_NoDup; [|apply sublist_take].
  rewrite sort_values_descending_Permutation, product_revenue_labels.
  apply NoDup_group_keys.
Qed.

Lemma top_products_list_labels df : (top_products_list df).*1 = (top_products df).*1.
Proof. unfold top_products_list. by rewrite <-list_fmap_compose. Qed.

(** X3: every entry of the list is a product of the table with its summed
    revenue rounded to two decimals, and no product is listed twice. *)
Theorem top_n_entries data :
  NoDup (out_top_n_products_by_revenue (main data)).*1 ∧
  ∀ p v, (p, v) ∈ out_top_n_products_by_revenue (main data) →
    p ∈ product <$> data ∧ v = round2 (product_total (derive data) p).
Proof.
  simpl. split.
  - rewrite top_products_list_labels. apply NoDup_top_products.
  - intros p v ([p' w] & [= -> ->] & Hin)%list_elem_of_fmap.
    apply elem_of_top_products, elem_of_product_revenue in Hin as [Hp ->].
    by rewrite derive_product in Hp.
Qed.

(** X4: the list holds the largest totals: a product of the table that is not
    listed has a summed revenue no larger than that of any listed product. *)
Theorem top_n_dominates data p q v :
  p ∈ product <$> data →
  p ∉ (out_top_n_products_by_revenue (main data)).*1 →
  (q, v) ∈ out_top_n_products_by_revenue (main data) →
  (product_total (derive data) p <= product_total (derive data) q)%Q.
Proof.
  simpl. rewrite top_products_list_labels, <-derive_product.
  set (df := derive data). intros Hp Hout ([q' w] & [= -> ->] & Hq)%list_elem_of_fmap.
  pose proof (elem_of_top_products _ _ Hq) as [_ ->]%elem_of_product_revenue.
  pose proof (sort_values_descending_stable _ _ (product_revenue_sorted df)) as Hs.
  unfold top_products in Hq, Hout.
  rewrite <-(take_drop n (sort_values_descending (product_revenue df))) in Hs.
  assert ((p, product_total df p) ∈ drop n (sort_values_descending (product_revenue df)))
    as Hdrop.
  { apply product_revenue_elem in Hp.
    rewrite <-sort_values_descending_Permutation in Hp.
    rewrite <-(take_drop n (sort_values_descending (product_revenue df))) in Hp.
    apply elem_of_app in Hp as [Hp|Hp]; [|done].
    exfalso. apply Hout. apply list_elem_of_fmap. by eexists (_, _). }
  by destruct (StronglySorted_app_1_elem_of _ _ _ _ _ Hs Hq Hdrop) as [? _].
Qed.

(** Four products: D is left out, and its total is below that of A. *)
Definition four_products : list Transaction :=
  [ {| date := 0; region := "North"; product := "D"; units := 1; price := 1 |};
    {| date := 0; region := "North"; product := "A"; units := 2; price := 5 |};
    {| date := 0; region := "South"; product := "B"; units := 3; price := 5 |};
    {| date := 0; region := "South"; product := "C"; units := 4; price := 5 |} ].

Lemma top_n_dominates_witness :
  (product_total (derive four_products) "D"
   <= product_total (derive four_products) "A")%Q.
Proof.
  apply (top_n_dominates four_products "D" "A" (round2 10)).
  - by left.
  - vm_compute. intros H. repeat (apply elem_of_cons in H as [H|H]; [done|]).
    by apply not_elem_of_nil in H.
  - vm_compute. right. right. left.
Defined.

(** ** Sorting and grouping related tables *)

Section sorting_related.
Context {A : Type} (P : relation A) (leb : A → A → bool).
Hypothesis leb_related : ∀ a a' b b', P a a' → P b b' → leb a b = leb a' b'.

Lemma insert_sorted_Forall2 x x' l l' :
  P x x' → Forall2 P l l' →
  Forall2 P (insert_sorted leb x l) (insert_sorted leb x' l').
Proof.
  intros Hx Hl. induction Hl as [|y y' l l' Hy Hl IH]; simpl.
  { by repeat constructor. }
  rewrite (leb_related x x' y y') by done.
  destruct (leb x' y'); by repeat constructor.
Qed.

Lemma isort_Forall2 l l' :
  Forall2 P l l' → Forall2 P (isort leb l) (isort leb l').
Proof.
  induction 1; simpl; [constructor|]. by apply insert_sorted_Forall2.
Qed.
End sorting_related.

Section group_keys_ext.
Context {R K : Type} `{EqDecision K} (leb : K → K → bool) (key : R → K).
Hypothesis leb_total : ∀ x y, leb x y = true ∨ leb y x = true.
Hypothesis leb_trans : ∀ x y z, leb x y = true → leb y z = true → leb x z = true.
Hypothesis leb_antisym : ∀ x y, leb x y = true → leb y x = true → x = y.

(** The group keys depend on the set of key values only. *)
Lemma group_keys_ext (df1 df2 : list R) :
  (∀ k, k ∈ key <$> df1 ↔ k ∈ key <$> df2) →
  group_keys leb key df1 = group_keys leb key df2.
Proof.
  intros Hkeys.
  eapply (StronglySorted_unique_strong (λ a b, leb a b = true ∧ a ≠ b)).
  - intros x y _ _ [Hxy _] [Hyx _]. by apply leb_antisym.
  - by apply group_keys_sorted.
  - by apply group_keys_sorted.
  - apply NoDup_Permutation; [apply NoDup_group_keys..|].
    intros k. by rewrite !elem_of_group_keys.
Qed.
End group_keys_ext.

(** ** The order of (region, date) keys *)

Lemma string_compare_Lt_leb a b : String.compare a b = Lt → String.leb a b = true.
Proof. unfold String.leb. by intros ->. Qed.

Lemma string_compare_Lt_trans a b c :
  String.compare a b = Lt → String.compare b c = Lt → String.compare a c = Lt.
Proof.
  intros Hab Hbc.
  pose proof (string_leb_trans a b c (string_compare_Lt_leb _ _ Hab)
                (string_compare_Lt_leb _ _ Hbc)) as Hac.
  unfold String.leb in Hac.
  destruct (String.compare a c) eqn:Hc; [|done..].
  apply String.compare_eq_iff in Hc as ->.
  rewrite String.compare_antisym, Hbc in Hab. done.
Qed.

Lemma region_date_leb_total a b :
  region_date_leb a b = true ∨ region_date_leb b a = true.
Proof.
  unfold region_date_leb. rewrite (String.compare_antisym a.1 b.1).
  destruct (String.compare b.1 a.1); cbn [CompOpp]; auto.
  rewrite !Z.leb_le. lia.
Qed.

Lemma region_date_leb_antisym a b :
  region_date_leb a b = true → region_date_leb b a = true → a = b.
Proof.
  unfold region_date_leb. rewrite (String.compare_antisym a.1 b.1).
  destruct (String.compare b.1 a.1) eqn:Hc; cbn [CompOpp]; [|done..].
  apply String.compare_eq_iff in Hc. rewrite !Z.leb_le. intros ??.
  destruct a, b; simpl in *. f_equal; [done|lia].
Qed.

Lemma region_date_leb_trans a b c :
  region_date_leb a b = true → region_date_leb b c = true →
  region_date_leb a c = true.
Proof.
  unfold region_date_leb.
  destruct (String.compare a.1 b.1) eqn:Hab; [| |done].
  - apply String.compare_eq_iff in Hab as ->.
    destruct (String.compare b.1 c.1); [|done..].
    rewrite !Z.leb_le. lia.
  - destruct (String.compare b.1 c.1) eqn:Hbc; [| |done].
    + apply String.compare_eq_iff in Hbc as <-. by rewrite Hab.
    + by rewrite (string_compare_Lt_trans _ _ _ Hab Hbc).
Qed.

(** ** Lists and dictionaries that agree

    Rationals are compared with [==]: two rankings agree when they list the
    same labels with equal numbers, two dictionaries when they hold equal
    numbers under the same keys. *)

Definition entry_equiv : relation (string * Q) :=
  λ a b, a.1 = b.1 ∧ (a.2 == b.2)%Q.

Definition value_equiv : relation (option Q) := option_Forall2 Qeq.

Definition daily_equiv : relation Daily :=
  λ a b, d_region a = d_region b ∧ d_date a = d_date b ∧
         (d_revenue a == d_revenue b)%Q.

(** Two frames with the same products and the same total per product. *)
Definition same_product_totals (df1 df2 : list Row) : Prop :=
  (∀ p, p ∈ (λ r : Row, product r) <$> df1 ↔ p ∈ (λ r : Row, product r) <$> df2) ∧
  ∀ p, (product_total df1 p == product_total df2 p)%Q.

(** Two frames with the same (region, date) pairs and the same total per
    pair. *)
Definition same_daily_totals (df1 df2 : list Row) : Prop :=
  (∀ k, k ∈ region_date <$> df1 ↔ k ∈ region_date <$> df2) ∧
  ∀ r d, (daily_total df1 r d == daily_total df2 r d)%Q.

Lemma Qsum_Forall2 xs ys : Forall2 Qeq xs ys → (Qsum xs == Qsum ys)%Q.
Proof. induction 1 as [|x y xs ys Hxy _ IH]; simpl; [done|]. by rewrite Hxy, IH. Qed.

Lemma mean_Forall2 xs ys : Forall2 Qeq xs ys → value_equiv (mean xs) (mean ys).
Proof.
  intros Hxy. unfold mean. rewrite <-(Forall2_length _ _ _ Hxy).
  case_decide; constructor. by rewrite (Qsum_Forall2 _ _ Hxy).
Qed.

(** *** The ranking *)

Lemma product_revenue_keys df :
  product_revenue df
  = (λ p, (p, product_total df p)) <$> group_keys String.leb (λ r : Row, product r) df.
Proof. unfold product_revenue, groupby. by rewrite <-list_fmap_compose. Qed.

Lemma product_revenue_ext df1 df2 :
  same_product_totals df1 df2 →
  Forall2 entry_equiv (product_revenue df1) (product_revenue df2).
Proof.
  intros [Hkeys Htot]. rewrite !product_revenue_keys.
  rewrite (group_keys_ext String.leb (λ r : Row, product r)
             String.leb_total string_leb_trans String.leb_antisym df1 df2 Hkeys).
  apply Forall2_fmap, Forall_Forall2_diag, Forall_forall.
  intros p _. split; [done|]. apply Htot.
Qed.

Lemma value_leb_related a a' b b' :
  entry_equiv a a' → entry_equiv b b' → value_leb a b = value_leb a' b'.
Proof. intros [_ Ha] [_ Hb]. unfold value_leb. by rewrite Ha, Hb. Qed.

Lemma top_products_list_Forall2 s1 s2 :
  Forall2 entry_equiv s1 s2 →
  Forall2 entry_equiv
    ((λ pr : string * Q, (pr.1, round2 pr.2)) <$> take n (sort_values_descending s1))
    ((λ pr : string * Q, (pr.1, round2 pr.2)) <$> take n (sort_values_descending s2)).
Proof.
  intros Hs. apply Forall2_fmap.
  eapply Forall2_impl;
    [apply Forall2_take, Forall2_reverse,
       (isort_Forall2 entry_equiv value_leb value_leb_related), Forall2_reverse, Hs|].
  intros a b [Hl Hv]. split; [done|]. simpl. by rewrite Hv.
Qed.

Lemma top_products_list_ext df1 df2 :
  same_product_totals df1 df2 →
  Forall2 entry_equiv (top_products_list df1) (top_products_list df2).
Proof. intros H. by apply top_products_list_Forall2, product_revenue_ext. Qed.

(** *** The daily frame and the rolling dictionary *)

Lemma daily_sums_keys_totals df :
  daily_sums df
  = (λ k : string * Z,
       {| d_region := k.1; d_date := k.2; d_revenue := daily_total df k.1 k.2 |})
    <$> group_keys region_date_leb region_date df.
Proof.
  unfold daily_sums, groupby. rewrite <-list_fmap_compose.
  apply list_fmap_ext. intros _ [r d] _. simpl. unfold daily_total.
  do 3 f_equal. apply list_filter_iff. intros y. unfold region_date.
  split; [by intros [= -> ->]|by intros [-> ->]].
Qed.

Lemma daily_sums_ext df1 df2 :
  same_daily_totals df1 df2 →
  Forall2 daily_equiv (daily_sums df1) (daily_sums df2).
Proof.
  intros [Hkeys Htot]. rewrite !daily_sums_keys_totals.
  rewrite (group_keys_ext region_date_leb region_date region_date_leb_total
             region_date_leb_trans region_date_leb_antisym df1 df2 Hkeys).
  apply Forall2_fmap, Forall_Forall2_diag, Forall_forall.
  intros k _. split; [done|]. split; [done|]. apply Htot.
Qed.

Lemma date_leb_related a a' b b' :
  daily_equiv a a' → daily_equiv b b' → date_leb a b = date_leb a' b'.
Proof. intros (_ & Ha & _) (_ & Hb & _). unfold date_leb. by rewrite Ha, Hb. Qed.

Lemma daily_region_revenue_ext df1 df2 :
  same_daily_totals df1 df2 →
  Forall2 daily_equiv (daily_region_revenue df1) (daily_region_revenue df2).
Proof.
  intros H. apply (isort_Forall2 daily_equiv date_leb date_leb_related).
  by apply daily_sums_ext.
Qed.

Lemma rolling_mean_Forall2 g1 g2 :
  Forall2 daily_equiv g1 g2 →
  Forall2 value_equiv (rolling_mean g1) (rolling_mean g2).
Proof.
  intros Hg. apply Forall2_same_length_lookup. split.
  { unfold rolling_mean. rewrite !length_imap. by eapply Forall2_length. }
  intros i v1 v2. unfold rolling_mean. rewrite !list_lookup_imap.
  destruct (g1 !! i) as [x|] eqn:H1; [|done].
  destruct (g2 !! i) as [y|] eqn:H2; [|done].
  intros [= <-] [= <-].
  destruct (Forall2_lookup_lr _ _ _ _ _ _ Hg H1 H2) as (_ & Hd & _).
  apply mean_Forall2, Forall2_fmap. unfold rolling_window.
  eapply Forall2_impl;
    [apply (Forall2_filter daily_equiv); [|apply Forall2_take, Hg]|].
  - intros a b (_ & Hab & _). simpl. by rewrite Hd, Hab.
  - by intros a b (_ & _ & ?).
Qed.

Lemma rolling_entry_Forall2 g1 g2 :
  Forall2 daily_equiv g1 g2 → value_equiv (rolling_entry g1) (rolling_entry g2).
Proof.
  intros Hg%rolling_mean_Forall2%Forall2_last.
  unfold rolling_entry, last_rolling_value.
  destruct Hg as [v1 v2 Hv|]; [|constructor].
  destruct Hv as [q1 q2 Hq|]; constructor. by rewrite Hq.
Qed.

Lemma region_groups_Forall2 df1 df2 :
  same_daily_totals df1 df2 →
  Forall2 (λ a b : string * list Daily, a.1 = b.1 ∧ Forall2 daily_equiv a.2 b.2)
    (region_groups df1) (region_groups df2).
Proof.
  intros Hd%daily_region_revenue_ext. unfold region_groups, groupby, group_keys.
  assert (d_region <$> daily_region_revenue df1
          = d_region <$> daily_region_revenue df2) as ->.
  { induction Hd as [|x y l1 l2 (Hr & _) _ IH]; [done|].
    by rewrite !fmap_cons, Hr, IH. }
  apply Forall2_fmap, Forall_Forall2_diag, Forall_forall.
  intros r _. split; [done|]. simpl.
  apply (Forall2_filter daily_equiv); [|done].
  intros a b (Hab & _). by rewrite Hab.
Qed.

Section fill_related.
Context {G V : Type} (f : G → V) (RG : relation G) (RV : relation V).
Hypothesis f_related : ∀ g1 g2, RG g1 g2 → RV (f g1) (f g2).

Lemma foldl_insert_related (l1 l2 : list (string * G)) (m1 m2 : gmap string V) :
  Forall2 (λ a b, a.1 = b.1 ∧ RG a.2 b.2) l1 l2 →
  (∀ k, option_Forall2 RV (m1 !! k) (m2 !! k)) →
  ∀ k, option_Forall2 RV
         (foldl (λ m (kg : string * G), <[kg.1 := f kg.2]> m) m1 l1 !! k)
         (foldl (λ m (kg : string * G), <[kg.1 := f kg.2]> m) m2 l2 !! k).
Proof.
  intros Hl. revert m1 m2.
  induction Hl as [|a b l1 l2 [Hk Hg] _ IH]; intros m1 m2 Hm; [done|].
  simpl. apply IH. intros k. rewrite Hk.
  destruct (decide (b.1 = k)) as [->|Hne].
  - rewrite !lookup_insert_eq. constructor. by apply f_related.
  - by rewrite !lookup_insert_ne.
Qed.
End fill_related.

Lemma rolling_ext df1 df2 :
  same_daily_totals df1 df2 →
  ∀ r, option_Forall2 value_equiv
         (rolling_7d_revenue_by_region df1 !! r)
         (rolling_7d_revenue_by_region df2 !! r).
Proof.
  intros Hd%region_groups_Forall2. unfold rolling_7d_revenue_by_region.
  apply (foldl_insert_related rolling_entry (Forall2 daily_equiv) value_equiv
           rolling_entry_Forall2 _ _ ∅ ∅ Hd).
  intros k. rewrite !lookup_empty. constructor.
Qed.

(** ** Tables with the same rows *)

Lemma same_product_totals_Permutation df1 df2 :
  df1 ≡ₚ df2 → same_product_totals df1 df2.
Proof.
  intros Hdf. split.
  - intros p. by rewrite Hdf.
  - intros p. unfold product_total. apply Qsum_Permutation. by rewrite Hdf.
Qed.

(** Three rows of three products in two regions. *)
Definition rows_abc : list Transaction :=
  [ {| date := 0; region := "North"; product := "B"; units := 1; price := 10 |};
    {| date := day_ns; region := "South"; product := "A"; units := 2; price := 5 |};
    {| date := 0; region := "North"; product := "C"; units := 3; price := 1 |} ].

(** ** The columns each metric reads *)

Lemma same_product_totals_columns df1 df2 :
  Forall2 (λ x y : Row, product x = product y ∧ (revenue x == revenue y)%Q) df1 df2 →
  same_product_totals df1 df2.
Proof.
  intros Hdf. split.
  - assert ((λ r : Row, product r) <$> df1 = (λ r : Row, product r) <$> df2) as ->;
      [|done].
    induction Hdf as [|x y l1 l2 [Hp _] _ IH]; [done|].
    by rewrite !fmap_cons, Hp, IH.
  - intros p. unfold product_total. apply Qsum_Forall2, Forall2_fmap.
    eapply Forall2_impl; [apply Forall2_filter; [|exact Hdf]|].
    + intros x y [Hp _]. simpl. by rewrite Hp.
    + by intros x y [_ ?].
Qed.

Lemma same_daily_totals_columns df1 df2 :
  Forall2 (λ x y : Row, region x = region y ∧ date x = date y ∧
                        (revenue x == revenue y)%Q) df1 df2 →
  same_daily_totals df1 df2.
Proof.
  intros Hdf. split.
  - assert (region_date <$> df1 = region_date <$> df2) as ->; [|done].
    induction Hdf as [|x y l1 l2 (Hr & Hd & _) _ IH]; [done|].
    rewrite !fmap_cons, IH. unfold region_date. by rewrite Hr, Hd.
  - intros r d. unfold daily_total. apply Qsum_Forall2, Forall2_fmap.
    eapply Forall2_impl; [apply Forall2_filter; [|exact Hdf]|].
    + intros x y (Hr & Hd & _). simpl. by rewrite Hr, Hd.
    + by intros x y (_ & _ & ?).
Qed.

Lemma derive_Forall2 (P : relation Row) (Q : relation Transaction) data1 data2 :
  (∀ t1 t2, Q t1 t2 → P (add_revenue t1) (add_revenue t2)) →
  Forall2 Q data1 data2 → Forall2 P (derive data1) (derive data2).
Proof. intros HPQ Hd. apply Forall2_fmap. by eapply Forall2_impl. Qed.

(** X6: each metric reads its own columns: the ranking is fixed by the product
    and the revenue of every row, the rolling dictionary by its region, date
    and revenue, and the region count by its region. *)
Theorem metrics_read_their_columns data1 data2 :
  (Forall2 (λ t1 t2 : Transaction,
              product t1 = product t2 ∧
              (units t1 * price t1 == units t2 * price t2)%Q) data1 data2 →
   Forall2 entry_equiv (out_top_n_products_by_revenue (main data1))
     (out_top_n_products_by_revenue (main data2))) ∧
  (Forall2 (λ t1 t2 : Transaction,
              region t1 = region t2 ∧ date t1 = date t2 ∧
              (units t1 * price t1 == units t2 * price t2)%Q) data1 data2 →
   ∀ r, option_Forall2 value_equiv
          (out_rolling_7d_revenue_by_region (main data1) !! r)
          (out_rolling_7d_revenue_by_region (main data2) !! r)) ∧
  (region <$> data1 = region <$> data2 →
   out_regions_count (main data1) = out_regions_count (main data2)).
Proof.
  split; [|split]; simpl.
  - intros Hd. apply top_products_list_ext, same_product_totals_columns.
    eapply derive_Forall2; [|exact Hd]. by intros t1 t2 [??].
  - intros Hd. apply rolling_ext, same_daily_totals_columns.
    eapply derive_Forall2; [|exact Hd]. by intros t1 t2 (? & ? & ?).
  - intros Hr. unfold regions_count. by rewrite !derive_region, Hr.
Qed.

(** The rows of [rows_abc] moved to other regions and dates, and one of
    them sold as half units at twice the price. *)
Definition rows_abc_moved : list Transaction :=
  [ {| date := 5; region := "West"; product := "B"; units := 1; price := 10 |};
    {| date := 7; region := "West"; product := "A"; units := 1 # 2; price := 20 |};
    {| date := 9; region := "East"; product := "C"; units := 3; price := 1 |} ].

Lemma metrics_read_their_columns_witness :
  Forall2 entry_equiv (out_top_n_products_by_revenue (main rows_abc))
    (out_top_n_products_by_revenue (main rows_abc_moved)).
Proof.
  apply (proj1 (metrics_read_their_columns rows_abc rows_abc_moved)).
  repeat constructor.
Defined.

(** ** Bounds on the report *)

Lemma Qsum_lower lo xs :
  Forall (λ x, (lo <= x)%Q) xs →
  (inject_Z (Z.of_nat (length xs)) * lo <= Qsum xs)%Q.
Proof.
  induction 1 as [|x xs Hx _ IH];
    [cbn [length Qsum foldr]; change (inject_Z (Z.of_nat 0)) with 0%Q; lra|].
  cbn [length Qsum foldr]. rewrite Nat2Z.inj_succ, <-Z.add_1_r, inject_Z_plus.
  change (inject_Z 1) with 1%Q. fold (Qsum xs). lra.
Qed.

Lemma Qsum_upper hi xs :
  Forall (λ x, (x <= hi)%Q) xs →
  (Qsum xs <= inject_Z (Z.of_nat (length xs)) * hi)%Q.
Proof.
  induction 1 as [|x xs Hx _ IH];
    [cbn [length Qsum foldr]; change (inject_Z (Z.of_nat 0)) with 0%Q; lra|].
  cbn [length Qsum foldr]. rewrite Nat2Z.inj_succ, <-Z.add_1_r, inject_Z_plus.
  change (inject_Z 1) with 1%Q. fold (Qsum xs). lra.
Qed.

Lemma length_pos_Q {A} (l : list A) : l ≠ [] → (0 < inject_Z (Z.of_nat (length l)))%Q.
Proof.
  intros Hl. change 0%Q with (inject_Z 0). rewrite <-Zlt_Qlt.
  destruct l; [done|]. simpl. lia.
Qed.

Lemma mean_over_lower df r lo ds :
  ds ≠ [] → (∀ d, d ∈ ds → (lo <= daily_total df r d)%Q) →
  (lo <= mean_over df r ds)%Q.
Proof.
  intros Hne Hlo. unfold mean_over.
  apply Qle_shift_div_l; [by apply length_pos_Q|].
  rewrite Qmult_comm, <-(length_fmap (daily_total df r)).
  apply Qsum_lower, Forall_fmap, Forall_forall. intros d Hd. by apply Hlo.
Qed.

Lemma mean_over_upper df r hi ds :
  ds ≠ [] → (∀ d, d ∈ ds → (daily_total df r d <= hi)%Q) →
  (mean_over df r ds <= hi)%Q.
Proof.
  intros Hne Hhi. unfold mean_over.
  apply Qle_shift_div_r; [by apply length_pos_Q|].
  rewrite Qmult_comm, <-(length_fmap (daily_total df r)).
  apply Qsum_upper, Forall_fmap, Forall_forall. intros d Hd. by apply Hhi.
Qed.

(** The value of a region with the window it was averaged over. *)
Lemma rolling_value_window df r v :
  rolling_7d_revenue_by_region df !! r = Some (Some v) →
  ∃ ds, ds ≠ [] ∧ ds ⊆ region_dates df r ∧ (v == round2 (mean_over df r ds))%Q.
Proof.
  intros Hv.
  assert (r ∈ dom (rolling_7d_revenue_by_region df)) as Hr
    by (apply elem_of_dom; by eexists).
  rewrite dom_rolling, elem_of_list_to_set in Hr.
  destruct (rolling_entry_spec _ _ Hr) as (d & w & [Hd _] & Hw & Heq).
  rewrite Hw in Hv. simplify_eq. eexists. split; [|split; [|exact Heq]].
  - intros Hnil.
    assert (d ∈ filter (λ d', (d - window < d' ∧ d' ≤ d)%Z) (region_dates df r)) as Hin.
    { apply list_elem_of_filter. split; [unfold window, day_ns; lia|done]. }
    rewrite Hnil in Hin. by apply not_elem_of_nil in Hin.
  - intros d' [_ ?]%list_elem_of_filter. done.
Qed.



(** ** The window on time stamps of any time of day *)

Lemma mean_over_pair df r d0 d1 :
  (mean_over df r [d0; d1] == (daily_total df r d0 + daily_total df r d1) / 2)%Q.
Proof. unfold mean_over. simpl. field. Qed.


(** Two rows of one region, exactly seven days apart. *)
Definition week_apart : list Transaction :=
  [ {| date := 0; region := "East"; product := "A"; units := 2; price := 5 |};
    {| date := 7 * day_ns; region := "East"; product := "B"; units := 3; price := 10 |} ].


(** ** The daily frame *)

(** X13: the daily frame has one row for every (region, date) pair of the table,
    in date order, that holds the revenue of the region on the date; the
    group of a region holds rows of that region only, one per date, in
    increasing date order. *)
Theorem daily_frame_invariant data :
  daily_key <$> daily_region_revenue (derive data)
    ≡ₚ remove_dups ((λ t, (region t, date t)) <$> data) ∧
  StronglySorted (λ a b, (d_date a ≤ d_date b)%Z) (daily_region_revenue (derive data)) ∧
  Forall (λ x, d_revenue x = daily_total (derive data) (d_region x) (d_date x))
    (daily_region_revenue (derive data)) ∧
  Forall (λ rg : string * list Daily,
            Forall (λ x, d_region x = rg.1) rg.2 ∧
            StronglySorted (λ a b, (d_date a < d_date b)%Z) rg.2)
    (region_groups (derive data)).
Proof.
  split; [|split; [|split]].
  - rewrite daily_region_revenue_Permutation, daily_sums_keys.
    unfold group_keys. rewrite isort_Permutation.
    unfold derive. by rewrite <-list_fmap_compose.
  - eapply StronglySorted_weaken; [|apply daily_region_revenue_sorted].
    by intros a b _ _ [? _].
  - apply Forall_forall. intros x Hx. apply elem_of_daily_sums.
    by rewrite <-daily_region_revenue_Permutation.
  - apply Forall_forall. intros [r g] [_ ->]%elem_of_region_groups. simpl. split.
    + apply Forall_forall. intros x Hx. by apply elem_of_region_rows in Hx as [? _].
    + apply region_rows_sorted.
Qed.

(** ** Tables with few products *)

(** X15: a table with at most three products has every product in the list. *)
Theorem top_n_lists_every_product_of_few data p :
  length (remove_dups (product <$> data)) ≤ 3 →
  p ∈ product <$> data →
  (p, round2 (product_total (derive data) p))
    ∈ out_top_n_products_by_revenue (main data).
Proof.
  intros Hlen Hp. simpl. unfold top_products_list, top_products.
  rewrite take_ge.
  - apply list_elem_of_fmap. exists (p, product_total (derive data) p).
    split; [done|]. rewrite sort_values_descending_Permutation.
    apply product_revenue_elem. by rewrite derive_product.
  - rewrite length_sort_values_descending. unfold product_revenue.
    rewrite length_fmap, length_groupby, derive_product. done.
Qed.

Lemma top_n_lists_every_product_of_few_witness :
  ("C", round2 (product_total (derive rows_abc) "C"))
    ∈ out_top_n_products_by_revenue (main rows_abc).
Proof.
  apply (top_n_lists_every_product_of_few rows_abc "C").
  - vm_compute. lia.
  - right. right. left.
Defined.

(** * The frame as loaded: missing cells and numbers out of range

    [pd.read_csv] leaves a missing value (NaN, or NaT once the dates are
    parsed) where a cell is empty, and a product or a sum of float64 numbers
    beyond the range of the type is an infinity.  This part models the frame
    with such cells, for the two counters and the rolling dictionary:
    - [len] counts every row; [nunique] ignores the missing labels;
    - [groupby] drops the rows that miss one of the keys;
    - a product with a missing factor is missing, and [sum] skips the
      missing values;
    - [rolling] takes an infinite value for a missing one, and the mean of a
      window is over the values that are left; it is NaN when fewer than
      [min_periods] are.
    A finite number is still taken as exact: the model tells which values
    are finite, infinite or missing, not the rounding of a float64.  The
    labels are columns of text. *)

(** A cell of a float64 column. *)
Inductive cell := Num (q : Q) | Inf | NaN.

(** A row of [df] once line 16 has parsed the dates. *)
Record Loaded := {
  l_date : option Z;          (* None: NaT *)
  l_region : option string;   (* None: NaN *)
  l_product : option string;
  l_units : cell;
  l_price : cell
}.

(** The largest finite float64, [(2 - 2^-52) * 2^1023]. *)
Definition float_max : Q := inject_Z (2 ^ 1024 - 2 ^ 971).

(** A result of float64 arithmetic: beyond the range it is an infinity. *)
Definition to_cell (q : Q) : cell :=
  if Qle_bool (Qabs q) float_max then Num q else Inf.

(** [*] on two cells. *)
Definition cell_mul (a b : cell) : cell :=
  match a, b with
  | NaN, _ | _, NaN => NaN
  | Num x, Num y => to_cell (x * y)
  | Inf, Num y | Num y, Inf => if Qeq_bool y 0 then NaN else Inf
  | Inf, Inf => Inf
  end.

(** [df["revenue"] = df["units"] * df["price"]] *)
Definition revenue_cell (x : Loaded) : cell := cell_mul (l_units x) (l_price x).

(** [sum] of a group, missing values skipped: a finite number, or [None]
    when the group holds an infinity or a partial sum leaves the range. *)
Definition sum_step (acc : option Q) (c : cell) : option Q :=
  match c with
  | NaN => acc
  | Inf => None
  | Num v =>
      match acc with
      | Some a => match to_cell (a + v) with Num s => Some s | _ => None end
      | None => None
      end
  end.

Definition cell_sum (cs : list cell) : option Q := foldl sum_step (Some 0%Q) cs.

(** [len(df)] *)
Definition row_count_loaded (raw : list Loaded) : nat := length raw.

(** [df["region"].nunique()] *)
Definition regions_count_loaded (raw : list Loaded) : nat :=
  length (remove_dups (omap l_region raw)).

(** The rows that [groupby(['region', 'date'])] keeps, with their keys. *)
Definition dated_rows (raw : list Loaded) : list ((string * Z) * cell) :=
  omap (λ x, match l_region x, l_date x with
             | Some r, Some d => Some ((r, d), revenue_cell x)
             | _, _ => None
             end) raw.

(** A row of the daily frame; [None] is a total that is not finite. *)
Record DailyL := { dl_region : string; dl_date : Z; dl_revenue : option Q }.

(** [df.groupby(['region', 'date'])['revenue'].sum().reset_index()] *)
Definition daily_sums_loaded (raw : list Loaded) : list DailyL :=
  (λ kg : (string * Z) * list ((string * Z) * cell),
     {| dl_region := kg.1.1; dl_date := kg.1.2;
        dl_revenue := cell_sum (snd <$> kg.2) |})
    <$> groupby region_date_leb fst (dated_rows raw).

Definition date_leb_loaded (a b : DailyL) : bool := (dl_date a <=? dl_date b)%Z.

(** [.set_index('date').sort_index()] *)
Definition daily_frame_loaded (raw : list Loaded) : list DailyL :=
  isort date_leb_loaded (daily_sums_loaded raw).

(** The rows of the window that ends at row [i], whose time stamp is [t]. *)
Definition window_rows (g : list DailyL) (i : nat) (t : Z) : list DailyL :=
  filter (λ x, (t - window < dl_date x)%Z) (take (S i) g).

(** The observations of a window: its finite values. *)
Definition observations (w : list DailyL) : list Q := omap dl_revenue w.

(** [group['revenue'].rolling(window='7D', min_periods=1).mean()] *)
Definition rolling_mean_loaded (g : list DailyL) : list (option Q) :=
  imap (λ i x, mean (observations (window_rows g i (dl_date x)))) g.

(** [rolling_avg.iloc[-1] if not rolling_avg.empty else np.nan] *)
Definition last_rolling_value_loaded (g : list DailyL) : option Q :=
  match last (rolling_mean_loaded g) with
  | Some v => v
  | None => None
  end.

(** [round(float(v), 2) if pd.notna(v) else None] *)
Definition rolling_entry_loaded (g : list DailyL) : option Q :=
  round2 <$> last_rolling_value_loaded g.

(** [daily_region_revenue.groupby('region')] *)
Definition region_groups_loaded (raw : list Loaded) : list (string * list DailyL) :=
  groupby String.leb dl_region (daily_frame_loaded raw).

(** The dictionary after the loop. *)
Definition rolling_loaded (raw : list Loaded) : gmap string (option Q) :=
  fill rolling_entry_loaded (region_groups_loaded raw).

(** The window at the last row of a group. *)
Definition last_window (g : list DailyL) : list DailyL :=
  match last g with
  | Some x => window_rows g (pred (length g)) (dl_date x)
  | None => []
  end.

(** The labels of the regions that have a row with a date. *)
Definition dated_regions (raw : list Loaded) : list string :=
  omap (λ x, match l_date x with Some _ => l_region x | None => None end) raw.

(** ** Facts about the loaded frame *)

Lemma elem_of_dated_rows raw r d :
  (r, d) ∈ (dated_rows raw).*1 ↔
  ∃ x, x ∈ raw ∧ l_region x = Some r ∧ l_date x = Some d.
Proof.
  unfold dated_rows. rewrite list_elem_of_fmap. split.
  - intros ([k c] & Heq & (x & Hx & Hk)%list_elem_of_omap).
    exists x. split; [done|]. simpl in Heq. subst k.
    destruct (l_region x), (l_date x); by simplify_eq/=.
  - intros (x & Hx & Hr & Hd). exists ((r, d), revenue_cell x). split; [done|].
    apply list_elem_of_omap. exists x. split; [done|]. by rewrite Hr, Hd.
Qed.

Definition daily_key_loaded (y : DailyL) : string * Z := (dl_region y, dl_date y).

Lemma daily_sums_loaded_keys raw :
  daily_key_loaded <$> daily_sums_loaded raw
  = group_keys region_date_leb fst (dated_rows raw).
Proof.
  unfold daily_sums_loaded. rewrite <-list_fmap_compose, <-groupby_keys.
  apply list_fmap_ext. by intros _ [[??] ?] _.
Qed.

(** The revenue cells of the rows of a region on a date. *)
Definition revenues_on (raw : list Loaded) (r : string) (d : Z) : list cell :=
  snd <$> filter (λ kc : (string * Z) * cell, kc.1 = (r, d)) (dated_rows raw).

Lemma elem_of_daily_frame_loaded raw y :
  y ∈ daily_frame_loaded raw →
  (∃ x, x ∈ raw ∧ l_region x = Some (dl_region y) ∧ l_date x = Some (dl_date y)) ∧
  dl_revenue y = cell_sum (revenues_on raw (dl_region y) (dl_date y)).
Proof.
  unfold daily_frame_loaded. rewrite elem_of_isort. unfold daily_sums_loaded.
  intros ([[r d] g] & -> & Hg)%list_elem_of_fmap.
  apply elem_of_groupby in Hg as [Hk ->]. simpl. split; [|done].
  by apply elem_of_dated_rows.
Qed.

Lemma daily_frame_loaded_regions raw r :
  r ∈ dl_region <$> daily_frame_loaded raw ↔ r ∈ dated_regions raw.
Proof.
  unfold dated_regions. rewrite list_elem_of_omap, list_elem_of_fmap. split.
  - intros (y & -> & Hy).
    apply elem_of_daily_frame_loaded in Hy as [(x & Hx & Hr & Hd) _].
    exists x. split; [done|]. by rewrite Hd.
  - intros (x & Hx & Hr).
    destruct (l_date x) as [d|] eqn:Hd; [|done].
    assert ((r, d) ∈ daily_key_loaded <$> daily_frame_loaded raw) as Hk.
    { unfold daily_frame_loaded. rewrite isort_Permutation, daily_sums_loaded_keys.
      apply elem_of_group_keys, elem_of_dated_rows. by exists x. }
    apply list_elem_of_fmap in Hk as (y & [= -> _] & Hy). by exists y.
Qed.

Lemma elem_of_region_groups_loaded raw r g :
  (r, g) ∈ region_groups_loaded raw ↔
  r ∈ dated_regions raw ∧ g = filter (λ y, dl_region y = r) (daily_frame_loaded raw).
Proof.
  unfold region_groups_loaded. by rewrite elem_of_groupby, daily_frame_loaded_regions.
Qed.

Lemma NoDup_region_groups_loaded raw : NoDup (region_groups_loaded raw).*1.
Proof. unfold region_groups_loaded. rewrite groupby_keys. apply NoDup_group_keys. Qed.

Lemma dom_rolling_loaded raw :
  dom (rolling_loaded raw) = list_to_set (dated_regions raw).
Proof.
  unfold rolling_loaded. rewrite dom_fill.
  apply set_eq. intros r. rewrite !elem_of_list_to_set, list_elem_of_fmap. split.
  - intros ([r' g] & -> & Hg). by apply elem_of_region_groups_loaded in Hg as [? _].
  - intros Hr. eexists (r, _). split; [done|].
    by apply elem_of_region_groups_loaded.
Qed.

Lemma dated_regions_all raw :
  Forall (λ x, is_Some (l_date x)) raw → dated_regions raw = omap l_region raw.
Proof.
  unfold dated_regions.
  induction 1 as [|x raw [d Hd] _ IH]; [done|].
  csimpl. by rewrite Hd, IH.
Qed.

(** ** The keys of the dictionary *)


(** A region with a date, and a region whose only row has none. *)
Definition undated_west : list Loaded :=
  [ {| l_date := Some 0%Z; l_region := Some "East"; l_product := Some "A";
       l_units := Num 2; l_price := Num 5 |};
    {| l_date := None; l_region := Some "West"; l_product := Some "B";
       l_units := Num 3; l_price := Num 10 |} ].

Definition all_dated : list Loaded :=
  [ {| l_date := Some 0%Z; l_region := Some "East"; l_product := Some "A";
       l_units := Num 2; l_price := Num 5 |};
    {| l_date := Some day_ns; l_region := Some "West"; l_product := Some "B";
       l_units := Num 3; l_price := Num 10 |} ].



(** ** The groups of the loop and their last window *)

Lemma date_leb_loaded_total a b :
  date_leb_loaded a b = true ∨ date_leb_loaded b a = true.
Proof. unfold date_leb_loaded. rewrite !Z.leb_le. lia. Qed.

Lemma date_leb_loaded_trans a b c :
  date_leb_loaded a b = true → date_leb_loaded b c = true →
  date_leb_loaded a c = true.
Proof. unfold date_leb_loaded. rewrite !Z.leb_le. lia. Qed.

Lemma daily_frame_loaded_sorted raw :
  StronglySorted
    (λ a b, (dl_date a ≤ dl_date b)%Z ∧
            ((dl_date b ≤ dl_date a)%Z → daily_key_loaded a ≠ daily_key_loaded b))
    (daily_frame_loaded raw).
Proof.
  pose proof (NoDup_group_keys region_date_leb fst (dated_rows raw)) as Hnd.
  rewrite <-daily_sums_loaded_keys in Hnd.
  apply StronglySorted_NoDup, StronglySorted_fmap in Hnd.
  apply (isort_stable date_leb_loaded date_leb_loaded_total date_leb_loaded_trans)
    in Hnd.
  eapply StronglySorted_weaken; [|exact Hnd].
  intros a b _ _ [Hab HP]. unfold date_leb_loaded in *. rewrite Z.leb_le in Hab.
  split; [done|]. intros Hba. apply HP. by apply Z.leb_le.
Qed.

(** The group of a region: rows of that region, in strictly increasing date
    order. *)
Lemma region_group_loaded_sorted raw r g :
  (r, g) ∈ region_groups_loaded raw →
  Forall (λ y, dl_region y = r) g ∧
  StronglySorted (λ a b, (dl_date a < dl_date b)%Z) g.
Proof.
  intros [_ ->]%elem_of_region_groups_loaded. split.
  - apply Forall_forall. by intros y [? _]%list_elem_of_filter.
  - eapply StronglySorted_weaken;
      [|apply StronglySorted_filter, daily_frame_loaded_sorted].
    intros a b [Ha _]%list_elem_of_filter [Hb _]%list_elem_of_filter [Hle Hne].
    destruct (decide (dl_date b ≤ dl_date a)%Z) as [Hba|]; [|lia].
    exfalso. apply (Hne Hba). unfold daily_key_loaded. f_equal; [congruence|lia].
Qed.

Lemma last_is_latest_loaded g x :
  StronglySorted (λ a b, (dl_date a < dl_date b)%Z) g →
  last g = Some x → Forall (λ y, (dl_date y ≤ dl_date x)%Z) g.
Proof.
  intros Hg. rewrite last_lookup. intros Hx.
  apply Forall_lookup. intros j y Hj.
  pose proof (lookup_lt_Some _ _ _ Hj) as Hlt.
  destruct (decide (j = pred (length g))) as [->|Hne]; [by simplify_eq|].
  assert (dl_date y < dl_date x)%Z; [|lia].
  apply (StronglySorted_lookup _ g j (pred (length g)) y x Hg); [lia|done..].
Qed.

(** The last window holds the rows of the group that are less than seven
    days older than its last row. *)
Lemma last_window_filter g x :
  last g = Some x →
  last_window g = filter (λ y, (dl_date x - window < dl_date y)%Z) g.
Proof.
  intros Hx. unfold last_window, window_rows. rewrite Hx.
  rewrite take_ge; [done|]. destruct g; simpl; lia.
Qed.

Lemma last_rolling_mean_loaded g x :
  last g = Some x →
  last (rolling_mean_loaded g) = Some (mean (observations (last_window g))).
Proof.
  intros Hx. unfold last_window. rewrite Hx.
  rewrite last_lookup in Hx. rewrite last_lookup.
  unfold rolling_mean_loaded. rewrite length_imap, list_lookup_imap, Hx. done.
Qed.

Lemma mean_None xs : mean xs = None ↔ xs = [].
Proof.
  unfold mean, min_periods. split.
  - case_decide; [|done]. destruct xs; [done|simpl in *; lia].
  - by intros ->.
Qed.

Lemma observations_nil w : observations w = [] ↔ Forall (λ y, dl_revenue y = None) w.
Proof.
  unfold observations. induction w as [|y w IH]; [by split|]. csimpl.
  destruct (dl_revenue y) as [q|] eqn:Hy; simpl.
  - split; [done|]. intros [? _]%Forall_cons. congruence.
  - rewrite IH, Forall_cons. split; [by intros ?|by intros [_ ?]].
Qed.

Lemma rolling_entry_loaded_None g x :
  last g = Some x →
  rolling_entry_loaded g = None ↔
  Forall (λ y, (dl_date x - window < dl_date y)%Z → dl_revenue y = None) g.
Proof.
  intros Hx. unfold rolling_entry_loaded, last_rolling_value_loaded.
  rewrite (last_rolling_mean_loaded _ _ Hx), fmap_None, mean_None, observations_nil.
  rewrite (last_window_filter _ _ Hx), !Forall_forall.
  split.
  - intros H y Hy Hw. apply H. by apply list_elem_of_filter.
  - intros H y [Hw Hy]%list_elem_of_filter. by apply H.
Qed.

Lemma rolling_loaded_lookup raw r g :
  (r, g) ∈ region_groups_loaded raw →
  rolling_loaded raw !! r = Some (rolling_entry_loaded g).
Proof.
  intros Hg. apply (lookup_fill rolling_entry_loaded); [|done].
  apply NoDup_region_groups_loaded.
Qed.

Lemma rolling_loaded_group raw r v :
  rolling_loaded raw !! r = Some v →
  ∃ g, (r, g) ∈ region_groups_loaded raw ∧ v = rolling_entry_loaded g.
Proof.
  intros Hv.
  assert (r ∈ dom (rolling_loaded raw)) as Hr by (apply elem_of_dom; by eexists).
  rewrite dom_rolling_loaded, elem_of_list_to_set in Hr.
  eexists. split; [by apply elem_of_region_groups_loaded|].
  erewrite rolling_loaded_lookup in Hv by (by apply elem_of_region_groups_loaded).
  by simplify_eq.
Qed.

Lemma region_group_loaded_last raw r g :
  (r, g) ∈ region_groups_loaded raw → ∃ x, last g = Some x.
Proof.
  intros Hg. unfold region_groups_loaded in Hg.
  apply groupby_nonempty in Hg.
  destruct (last g) as [x|] eqn:Hlast; [by eexists|]. by apply last_None in Hlast.
Qed.

(** ** Null values in the dictionary *)

(** A finite number in a cell. *)
Definition numeric (c : cell) : Prop :=
  match c with Num _ => True | _ => False end.

(** C10 as the claim words it: on a table that is not empty, where every row
    has a date and numeric units and price, no value of the dictionary is
    null. *)
Definition never_null (raw : list Loaded) : Prop :=
  raw ≠ [] →
  Forall (λ x, is_Some (l_date x) ∧ numeric (l_units x) ∧ numeric (l_price x)) raw →
  ∀ r v, rolling_loaded raw !! r = Some v → is_Some v.

(** One row whose revenue, 10^308 * 10, is beyond the range of float64. *)
Definition overflow_data : list Loaded :=
  [ {| l_date := Some 0%Z; l_region := Some "East"; l_product := Some "A";
       l_units := Num (inject_Z (10 ^ 308)); l_price := Num 10 |} ].

Lemma overflow_data_run :
  revenue_cell <$> overflow_data = [Inf] ∧
  rolling_loaded overflow_data !! "East" = Some None.
Proof. by vm_compute. Qed.




(** ** The counters on the loaded frame *)

Lemma omap_nil_iff {A B} (f : A → option B) (l : list A) :
  omap f l = [] ↔ Forall (λ x, f x = None) l.
Proof.
  induction l as [|x l IH]; [by split|]. csimpl.
  destruct (f x) eqn:Hx; simpl.
  - split; [done|]. intros [? _]%Forall_cons. congruence.
  - rewrite IH, Forall_cons. split; [by intros ?|by intros [_ ?]].
Qed.

Lemma length_omap_le {A B} (f : A → option B) (l : list A) :
  length (omap f l) ≤ length l.
Proof.
  induction l as [|x l IH]; [done|]. csimpl.
  destruct (f x); simpl; lia.
Qed.

Lemma remove_dups_nil_iff `{EqDecision A} (l : list A) : remove_dups l = [] ↔ l = [].
Proof.
  split; [|by intros ->]. destruct l as [|x l]; [done|]. intros Hnil.
  assert (x ∈ remove_dups (x :: l)) as Hin by (apply elem_of_remove_dups; by left).
  rewrite Hnil in Hin. by apply not_elem_of_nil in Hin.
Qed.

(** X1: [row_count] is the number of rows of the frame and [regions_count]
    the number of region labels in it, the missing ones left out; there are
    never more regions than rows, and none exactly when every region cell is
    missing. *)
Theorem counts_of_loaded_frame raw :
  row_count_loaded raw = length raw ∧
  regions_count_loaded raw = size (list_to_set (omap l_region raw) : gset string) ∧
  regions_count_loaded raw ≤ row_count_loaded raw ∧
  (regions_count_loaded raw = 0 ↔ Forall (λ x, l_region x = None) raw).
Proof.
  unfold row_count_loaded, regions_count_loaded.
  split; [done|]. split; [by rewrite size_list_to_set_remove_dups|]. split.
  - etrans; [apply length_remove_dups_le|]. apply length_omap_le.
  - rewrite length_zero_iff_nil, remove_dups_nil_iff. apply omap_nil_iff.
Qed.

Lemma dated_regions_subseteq raw : dated_regions raw ⊆ omap l_region raw.
Proof.
  intros r. unfold dated_regions. rewrite !list_elem_of_omap.
  intros (x & Hx & Hr). exists x. split; [done|]. by destruct (l_date x).
Qed.

(** X2: the dictionary has one entry for every iteration of the loop, that
    is for every region that has a row with a date: never more than
    [regions_count] entries, and as many when every row has a date. *)
Theorem rolling_size_of_loaded_frame raw :
  size (rolling_loaded raw) = length (region_groups_loaded raw) ∧
  size (rolling_loaded raw) = size (list_to_set (dated_regions raw) : gset string) ∧
  size (rolling_loaded raw) ≤ regions_count_loaded raw ∧
  (Forall (λ x, is_Some (l_date x)) raw →
   size (rolling_loaded raw) = regions_count_loaded raw).
Proof.
  assert (size (rolling_loaded raw)
          = size (list_to_set (dated_regions raw) : gset string)) as Hsize
    by (by rewrite <-size_dom, dom_rolling_loaded).
  split; [|split; [done|split]].
  - rewrite Hsize, size_list_to_set_remove_dups.
    unfold region_groups_loaded. rewrite length_groupby.
    rewrite <-!size_list_to_set_remove_dups. f_equal.
    apply set_eq. intros r. rewrite !elem_of_list_to_set.
    symmetry. apply daily_frame_loaded_regions.
  - rewrite Hsize. unfold regions_count_loaded.
    rewrite <-size_list_to_set_remove_dups.
    apply subseteq_size. intros r. rewrite !elem_of_list_to_set.
    apply dated_regions_subseteq.
  - intros Hd. rewrite Hsize, (dated_regions_all _ Hd).
    unfold regions_count_loaded. by rewrite size_list_to_set_remove_dups.
Qed.

Lemma rolling_size_of_loaded_frame_witness :
  size (rolling_loaded all_dated) = regions_count_loaded all_dated.
Proof.
  apply (proj2 (proj2 (proj2 (rolling_size_of_loaded_frame all_dated)))).
  repeat constructor; by eexists.
Defined.

(** * The order of ties in the ranking

    [sort_values] is called with the default sort of pandas, which is not
    stable: the order it leaves between equal values is not specified.  A
    sorter is any routine that arranges a series in descending order of its
    values and treats equal numbers alike; the ranking is taken over every
    sorter. *)

Record Sorter := {
  sort_series :> list (string * Q) → list (string * Q);
  sorter_Permutation s : sort_series s ≡ₚ s;
  sorter_sorted s : StronglySorted (λ a b, (b.2 <= a.2)%Q) (sort_series s);
  sorter_proper s1 s2 :
    Forall2 entry_equiv s1 s2 → Forall2 entry_equiv (sort_series s1) (sort_series s2)
}.

(** Lines 28 to 40 with the sorter [S] for [sort_values]. *)
Definition top_products_list_with (S : Sorter) (df : list Row) : list (string * Q) :=
  (λ pr : string * Q, (pr.1, round2 pr.2)) <$> take n (S (product_revenue df)).

Lemma sort_values_descending_sorted s :
  StronglySorted (λ a b, (b.2 <= a.2)%Q) (sort_values_descending s).
Proof.
  assert (StronglySorted (λ _ _ : string * Q, True) s) as Hs.
  { induction s; constructor; [done|]. by apply Forall_true. }
  apply sort_values_descending_stable in Hs.
  eapply StronglySorted_weaken; [|exact Hs]. by intros a b _ _ [? _].
Qed.

Lemma sort_values_descending_proper s1 s2 :
  Forall2 entry_equiv s1 s2 →
  Forall2 entry_equiv (sort_values_descending s1) (sort_values_descending s2).
Proof.
  intros Hs. unfold sort_values_descending.
  by apply Forall2_reverse, (isort_Forall2 entry_equiv value_leb value_leb_related),
    Forall2_reverse.
Qed.

(** The sort that keeps equal values in the order of the series is a sorter. *)
Definition insertion_sorter : Sorter :=
  {| sort_series := sort_values_descending;
     sorter_Permutation := sort_values_descending_Permutation;
     sorter_sorted := sort_values_descending_sorted;
     sorter_proper := sort_values_descending_proper |}.

Definition sort_values_reversing (s : list (string * Q)) : list (string * Q) :=
  reverse (isort value_leb s).

Lemma sort_values_reversing_Permutation s : sort_values_reversing s ≡ₚ s.
Proof. unfold sort_values_reversing. by rewrite reverse_Permutation, isort_Permutation. Qed.

Lemma sort_values_reversing_sorted s :
  StronglySorted (λ a b, (b.2 <= a.2)%Q) (sort_values_reversing s).
Proof.
  pose proof (isort_sorted value_leb value_leb_total value_leb_trans s) as Hs.
  apply StronglySorted_reverse in Hs.
  eapply StronglySorted_weaken; [|exact Hs].
  intros a b _ _ Hba. unfold flip, value_leb in Hba. by apply Qle_bool_iff.
Qed.

Lemma sort_values_reversing_proper s1 s2 :
  Forall2 entry_equiv s1 s2 →
  Forall2 entry_equiv (sort_values_reversing s1) (sort_values_reversing s2).
Proof.
  intros Hs. unfold sort_values_reversing.
  by apply Forall2_reverse, (isort_Forall2 entry_equiv value_leb value_leb_related).
Qed.

(** The sort that turns the order of equal values round is another one. *)
Definition reversing_sorter : Sorter :=
  {| sort_series := sort_values_reversing;
     sorter_Permutation := sort_values_reversing_Permutation;
     sorter_sorted := sort_values_reversing_sorted;
     sorter_proper := sort_values_reversing_proper |}.

Lemma top_products_list_insertion df :
  top_products_list_with insertion_sorter df = top_products_list df.
Proof. done. Qed.

(** The tie-break policy as the specification words it, for the sorter [S]:
    of two listed products with equal summed revenue, the one listed first
    is the one that occurs first in the input. *)
Definition ties_follow_first_seen_with (S : Sorter) (data : list Transaction) : Prop :=
  ∀ i j a b ia ib,
    (i < j)%nat →
    top_products_list_with S (derive data) !! i = Some a →
    top_products_list_with S (derive data) !! j = Some b →
    (product_total (derive data) a.1 == product_total (derive data) b.1)%Q →
    first_seen data a.1 = Some ia →
    first_seen data b.1 = Some ib →
    (ia < ib)%nat.

(** The rows of [tie_data] in the other order: product A before product B. *)
Definition tie_data_swapped : list Transaction :=
  [ {| date := 0; region := "North"; product := "A"; units := 2; price := 5 |};
    {| date := 0; region := "North"; product := "B"; units := 1; price := 10 |} ].

Lemma tie_series :
  product_revenue (derive tie_data) = [("A", 10%Q); ("B", 10%Q)] ∧
  product_revenue (derive tie_data_swapped) = [("A", 10%Q); ("B", 10%Q)].
Proof. by vm_compute. Qed.

Lemma tie_first_seen :
  first_seen tie_data "A" = Some 1%nat ∧ first_seen tie_data "B" = Some 0%nat ∧
  first_seen tie_data_swapped "A" = Some 0%nat ∧
  first_seen tie_data_swapped "B" = Some 1%nat.
Proof. by vm_compute. Qed.

Lemma tie_totals :
  (product_total (derive tie_data) "A" == product_total (derive tie_data) "B")%Q ∧
  (product_total (derive tie_data_swapped) "B"
   == product_total (derive tie_data_swapped) "A")%Q.
Proof. by vm_compute. Qed.


(** The two sorters list the products of [tie_data] in opposite orders. *)
Lemma tie_data_both_orders :
  (top_products_list_with insertion_sorter (derive tie_data)).*1 = ["A"; "B"] ∧
  (top_products_list_with reversing_sorter (derive tie_data)).*1 = ["B"; "A"].
Proof. by vm_compute. Qed.

Lemma top_products_with_elem S df x :
  x ∈ take n (sort_series S (product_revenue df)) →
  x.1 ∈ (λ r : Row, product r) <$> df ∧ x.2 = product_total df x.1.
Proof.
  intros Hx%elem_of_take. destruct Hx as (i & Hx & _).
  apply list_elem_of_lookup_2 in Hx. rewrite sorter_Permutation in Hx.
  destruct x as [p v]. by apply elem_of_product_revenue in Hx.
Qed.



(** * The revenue of integer columns

    When every cell of [units] and of [price] is an integer, [pd.read_csv]
    makes both columns int64, and [*] is the multiplication of int64: the
    product modulo [2^64], taken between [-2^63] and [2^63 - 1]. *)

Definition int64_min : Z := - 2 ^ 63.
Definition int64_max : Z := 2 ^ 63 - 1.

Definition wrap64 (z : Z) : Z := (z + 2 ^ 63) mod 2 ^ 64 - 2 ^ 63.

(** A row of a table whose [units] and [price] columns are int64. *)
Record IntTransaction := {
  i_date : Z;
  i_region : string;
  i_product : string;
  i_units : Z;
  i_price : Z
}.

(** [df["revenue"] = df["units"] * df["price"]] on int64 columns. *)
Definition add_revenue_int64 (t : IntTransaction) : Row :=
  {| txn := {| date := i_date t; region := i_region t; product := i_product t;
               units := inject_Z (i_units t); price := inject_Z (i_price t) |};
     revenue := inject_Z (wrap64 (i_units t * i_price t)) |}.

Definition derive_int64 (data : list IntTransaction) : list Row :=
  add_revenue_int64 <$> data.

Lemma wrap64_range z : (int64_min ≤ wrap64 z ≤ int64_max)%Z.
Proof.
  unfold wrap64, int64_min, int64_max.
  pose proof (Z.mod_pos_bound (z + 2 ^ 63) (2 ^ 64) ltac:(lia)). lia.
Qed.

Lemma wrap64_congruent z : ((wrap64 z - z) mod 2 ^ 64 = 0)%Z.
Proof.
  unfold wrap64.
  replace ((z + 2 ^ 63) mod 2 ^ 64 - 2 ^ 63 - z)%Z
    with ((z + 2 ^ 63) mod 2 ^ 64 - (z + 2 ^ 63))%Z by lia.
  rewrite Zminus_mod, Z.mod_mod, Z.sub_diag by lia. done.
Qed.

Lemma wrap64_id z : wrap64 z = z ↔ (int64_min ≤ z ≤ int64_max)%Z.
Proof.
  split.
  - intros <-. apply wrap64_range.
  - unfold wrap64, int64_min, int64_max. intros Hz.
    rewrite Z.mod_small by lia. lia.
Qed.

(** The claim as it is worded, for a table of integer columns: the revenue
    of every row is the product of its units and its price. *)
Definition revenue_is_product (data : list IntTransaction) : Prop :=
  Forall (λ x : Row, (revenue x == units x * price x)%Q) (derive_int64 data).

(** One row with units = price = 3037000500, whose product is above 2^63. *)
Definition wrap_data : list IntTransaction :=
  [ {| i_date := 0; i_region := "North"; i_product := "A";
       i_units := 3037000500; i_price := 3037000500 |} ].

Lemma wrap_data_run :
  revenue <$> derive_int64 wrap_data = [inject_Z (-9223372036709301616)].
Proof. by vm_compute. Qed.


Lemma revenue_int64_spec t :
  ∃ z, revenue (add_revenue_int64 t) = inject_Z z ∧
       (int64_min ≤ z ≤ int64_max)%Z ∧
       ((z - i_units t * i_price t) mod 2 ^ 64 = 0)%Z ∧
       ((revenue (add_revenue_int64 t)
         == units (add_revenue_int64 t) * price (add_revenue_int64 t))%Q
        ↔ (int64_min ≤ i_units t * i_price t ≤ int64_max)%Z).
Proof.
  exists (wrap64 (i_units t * i_price t)).
  split; [done|]. split; [apply wrap64_range|]. split; [apply wrap64_congruent|].
  simpl. rewrite <-inject_Z_mult, inject_Z_injective. apply wrap64_id.
Qed.

Lemma regions_count_txn df1 df2 :
  Forall2 (λ x y : Row, txn x = txn y) df1 df2 →
  row_count df1 = row_count df2 ∧ regions_count df1 = regions_count df2.
Proof.
  intros Hdf. split; [by eapply Forall2_length|].
  unfold regions_count. do 2 f_equal.
  induction Hdf as [|x y l1 l2 Hxy _ IH]; [done|].
  by rewrite !fmap_cons, Hxy, IH.
Qed.


(** Two rows of integer columns whose products are int64. *)
Definition small_int_data : list IntTransaction :=
  [ {| i_date := 0; i_region := "North"; i_product := "A"; i_units := 4; i_price := 5 |};
    {| i_date := 0; i_region := "North"; i_product := "B"; i_units := 3; i_price := 7 |} ].

